(** * lilac/data/clustering.py: a shallow embedding and its properties

    The development follows the layout of the Python module:
    - the snippet shortener [_snippet_to_prefix_and_suffix];
    - the two labelers [summarize_request] and [generate_category] with
      their retry decoration;
    - [_compute_titles];
    - the validation prefix and the stage sequence of [cluster_impl];
    - the density clustering core [_hdbscan_cluster].

    Python values are modelled as the code has them: [str] is a sequence of
    code points, floats are IEEE binary64 numbers (Rocq's primitive floats),
    integers are [Z], dictionaries are finite maps, exceptions are values of
    [Exn] carried by an error monad, and the calls made to collaborators
    (embedding provider, UMAP, HDBSCAN, the remote function, the dataset) are
    recorded in an event trace. *)

From Stdlib Require Import ZArith NArith QArith Qminmax List Bool Lia String Ascii.
From Stdlib Require Import Floats Permutation.
From stdpp Require Import base option list gmap strings.
Import ListNotations.

Local Open Scope Z_scope.

(* ===================================================================== *)
(** ** Python basics *)
(* ===================================================================== *)

(** A Python [str]: a sequence of Unicode code points. [len] counts code
    points, slicing cuts between them. *)
Abbreviation char := N.
Abbreviation str := (list char).

Definition char_of_ascii (a : ascii) : char := N_of_ascii a.

(** A literal written in the source, as code points. *)
Definition lit (s : string) : str := map char_of_ascii (list_ascii_of_string s).

Definition NEWLINE : char := 10%N.

Definition char_eqb (a b : char) : bool := N.eqb a b.

Fixpoint str_eqb (a b : str) : bool :=
  match a, b with
  | [], [] => true
  | x :: a', y :: b' => char_eqb x y && str_eqb a' b'
  | _, _ => false
  end.

(** [str.isspace] on one code point: the ASCII table of CPython
    (0x09-0x0D, 0x1C-0x1F, 0x20) and the Unicode white space code points. *)
Definition is_space (c : char) : bool :=
  ((9 <=? c) && (c <=? 13) || (28 <=? c) && (c <=? 32)
   || (c =? 133) || (c =? 160) || (c =? 5760)
   || (8192 <=? c) && (c <=? 8202)
   || (c =? 8232) || (c =? 8233) || (c =? 8239) || (c =? 8287)
   || (c =? 12288))%N.

Fixpoint lstrip (s : str) : str :=
  match s with
  | [] => []
  | c :: rest => if is_space c then lstrip rest else s
  end.

Definition rstrip (s : str) : str := reverse (lstrip (reverse s)).

(** [text.strip()] *)
Definition strip (s : str) : str := rstrip (lstrip s).

(** [s[:n]] for a non-negative [n]. *)
Definition slice_to (n : nat) (s : str) : str := firstn n s.

(** [s[-n:]] for a positive [n]: the last [n] code points, the whole string
    when it is shorter. *)
Definition slice_last (n : nat) (s : str) : str := skipn (length s - n) s.

(** ['sep'.join(parts)] *)
Fixpoint join (sep : str) (parts : list str) : str :=
  match parts with
  | [] => []
  | [p] => p
  | p :: rest => p ++ sep ++ join sep rest
  end.

(* ===================================================================== *)
(** ** [_snippet_to_prefix_and_suffix] *)
(* ===================================================================== *)

Definition _SHORTEN_LEN : nat := 400.
Definition _TOP_K_CENTRAL_DOCS : nat := 7.
Definition _TOP_K_CENTRAL_TITLES : nat := 15.
Definition _NUM_THREADS : nat := 32.

(** ['\n...\n'] *)
Definition ELLIPSIS : str := [NEWLINE; 46%N; 46%N; 46%N; NEWLINE].

Definition _snippet_to_prefix_and_suffix (text : str) : str :=
  let text := strip text in
  if (length text <=? _SHORTEN_LEN)%nat then text
  else
    let prefix_len := (_SHORTEN_LEN / 2)%nat in
    slice_to prefix_len text ++ ELLIPSIS ++ slice_last prefix_len text.

(* ===================================================================== *)
(** ** Exceptions and results *)
(* ===================================================================== *)

(** The exception classes the module raises or lets through.
    [OutsideSchema] is not a Python exception: it marks an input that leaves
    the typed fragment the embedding covers (a cell whose type differs from
    the type the output schema of [cluster_impl] declares for its column). *)
Inductive Exn : Type :=
| ValueError (msg : string)
| IndexError
| KeyError (key : string)
| TypeError
| ZeroDivisionError
| ImportError
| RateLimitError
| APITimeoutError
| RetryError (last : Exn)
| OtherError (name : string)
| OutsideSchema.

Inductive Result (A : Type) : Type :=
| Ok (a : A)
| Raise (e : Exn).
Arguments Ok {A} a.
Arguments Raise {A} e.

Definition bind {A B : Type} (r : Result A) (k : A -> Result B) : Result B :=
  match r with
  | Ok a => k a
  | Raise e => Raise e
  end.

Declare Scope result_scope.
Delimit Scope result_scope with result.
Notation "x <- r ;; k" := (bind r (fun x => k))
  (at level 100, r at next level, right associativity) : result_scope.

Fixpoint mapM {A B : Type} (f : A -> Result B) (l : list A) : Result (list B) :=
  match l with
  | [] => Ok []
  | a :: rest =>
      (b <- f a ;; bs <- mapM f rest ;; Ok (b :: bs))%result
  end.

(* ===================================================================== *)
(** ** The retry decorator of the labelers *)
(* ===================================================================== *)

(** The arguments of [@retry(...)] as written on [request_with_retries]. *)
Record RetryPolicy : Type := {
  retry_if_exception_type : Exn -> bool;
  wait_multiplier : Q;
  wait_max : Q;
  stop_after_attempt : nat
}.

(** [isinstance(e, (openai.RateLimitError, openai.APITimeoutError))] *)
Definition is_rate_limit_or_timeout (e : Exn) : bool :=
  match e with
  | RateLimitError | APITimeoutError => true
  | _ => false
  end.

Definition request_policy : RetryPolicy := {|
  retry_if_exception_type := is_rate_limit_or_timeout;
  wait_multiplier := 1 # 2;
  wait_max := 60;
  stop_after_attempt := 10
|}.

(** What the decorated function does, in order: calls of the wrapped
    function, numbered from 1, and sleeps between them. *)
Inductive RetryEvent : Type :=
| Attempt (attempt_number : nat)
| Sleep (seconds : Q).

(** [wait_exponential.__call__]: [multiplier * 2 ** (attempt_number - 1)],
    clipped to [[0, max]]. *)
Definition wait_exponential (p : RetryPolicy) (attempt_number : nat) : Q :=
  Qmax 0 (Qmin (wait_multiplier p * inject_Z (2 ^ Z.of_nat (attempt_number - 1)))
                (wait_max p)).

(** [wait_random_exponential.__call__]: [random.uniform(0, high)], that is
    [0 + (high - 0) * random()]; [u] is the draw of [random()]. *)
Definition wait_random_exponential (p : RetryPolicy) (u : Q) (attempt_number : nat) : Q :=
  u * wait_exponential p attempt_number.

(** tenacity's [Retrying.__call__] for a policy made of
    [retry_if_exception_type], [wait_random_exponential] and
    [stop_after_attempt], without [reraise]: the wrapped function is called;
    a result is returned; an exception the retry predicate rejects is raised
    as it is; otherwise, when [attempt_number >= stop_after_attempt], a
    [RetryError] is raised, and else the loop sleeps and tries again.
    [left] counts the attempts that remain after this one, so
    [left = 0] is the stop condition. *)
Fixpoint retrying {A : Type} (p : RetryPolicy) (fn : nat -> Result A) (random : nat -> Q)
    (left attempt_number : nat) : list RetryEvent * Result A :=
  match fn attempt_number with
  | Ok a => ([Attempt attempt_number], Ok a)
  | Raise e =>
      if negb (retry_if_exception_type p e) then ([Attempt attempt_number], Raise e)
      else
        match left with
        | O => ([Attempt attempt_number], Raise (RetryError e))
        | S left' =>
            let sleep := wait_random_exponential p (random attempt_number) attempt_number in
            let '(events, r) := retrying p fn random left' (S attempt_number) in
            (Attempt attempt_number :: Sleep sleep :: events, r)
        end
  end.

Definition retry {A : Type} (p : RetryPolicy) (fn : nat -> Result A) (random : nat -> Q)
    : list RetryEvent * Result A :=
  retrying p fn random (stop_after_attempt p - 1) 1.

(* ===================================================================== *)
(** ** [summarize_request] and [generate_category] *)
(* ===================================================================== *)

Inductive ResponseModel : Type := Title | Category.

(** The two system instructions, named rather than spelled out. *)
Inductive SystemPrompt : Type := TitleGeneratorPrompt | CategoryLabelerPrompt.

Record ChatRequest : Type := {
  model : string;
  response_model : ResponseModel;
  temperature : float;
  max_tokens : Z;
  system_content : SystemPrompt;
  user_content : str
}.

(** The text-generation collaborator: whether the [openai] package can be
    imported, what the [n]-th call of [chat.completions.create] for a request
    gives, and the draws of [random()] used by the backoff. *)
Record OpenAI : Type := {
  openai_installed : bool;
  chat_completions_create : ChatRequest -> nat -> Result str;
  backoff_random : nat -> Q
}.

Definition summarize_request (ai : OpenAI) (ranked_docs : list (str * float))
    : list RetryEvent * Result str :=
  let docs := map fst (firstn _TOP_K_CENTRAL_DOCS ranked_docs) in
  let texts :=
    map (fun doc => lit "BEGIN_REQUEST" ++ [NEWLINE] ++ _snippet_to_prefix_and_suffix doc
                    ++ [NEWLINE] ++ lit "END_REQUEST") docs in
  let input := join [NEWLINE] texts in
  if negb (openai_installed ai) then ([], Raise ImportError)
  else
    let request := {|
      model := "gpt-3.5-turbo-1106";
      response_model := Title;
      temperature := 0%float;
      max_tokens := 50;
      system_content := TitleGeneratorPrompt;
      user_content := input |} in
    retry request_policy (chat_completions_create ai request) (backoff_random ai).

Definition generate_category (ai : OpenAI) (ranked_docs : list (str * float))
    : list RetryEvent * Result str :=
  let docs := map fst (firstn _TOP_K_CENTRAL_TITLES ranked_docs) in
  let input := join [NEWLINE] docs in
  if negb (openai_installed ai) then ([], Raise ImportError)
  else
    let request := {|
      model := "gpt-3.5-turbo-1106";
      response_model := Category;
      temperature := 0%float;
      max_tokens := 50;
      system_content := CategoryLabelerPrompt;
      user_content := input |} in
    retry request_policy (chat_completions_create ai request) (backoff_random ai).

(* ===================================================================== *)
(** ** Items *)
(* ===================================================================== *)

(** A cell of a row. *)
Inductive Value : Type :=
| VNone
| VInt (z : Z)
| VFloat (f : float)
| VStr (s : str).

(** A row is a dictionary from column names to cells. *)
Abbreviation Dict := (gmap string Value).

(** An [Item] is a dictionary or [None]. *)
Abbreviation Item := (option Dict).

(** [x[key]] *)
Definition subscript (x : Item) (key : string) : Result Value :=
  match x with
  | None => Raise TypeError
  | Some d =>
      match d !! key with
      | Some v => Ok v
      | None => Raise (KeyError key)
      end
  end.

(** [a == b] on cells of one type (each column has one type). *)
Definition value_eqb (a b : Value) : bool :=
  match a, b with
  | VNone, VNone => true
  | VInt x, VInt y => x =? y
  | VFloat x, VFloat y => PrimFloat.eqb x y
  | VStr x, VStr y => str_eqb x y
  | _, _ => false
  end.

(** [not v]: [None], [0], [0.0] and [''] are falsy. *)
Definition falsy (v : Value) : bool :=
  match v with
  | VNone => true
  | VInt z => z =? 0
  | VFloat f => PrimFloat.eqb f 0
  | VStr s => match s with [] => true | _ => false end
  end.

(** [v < 0] *)
Definition negative (v : Value) : Result bool :=
  match v with
  | VInt z => Ok (z <? 0)
  | VFloat f => Ok (PrimFloat.ltb f 0)
  | VNone | VStr _ => Raise TypeError
  end.

(** [v == 0] *)
Definition equals_zero (v : Value) : bool :=
  match v with
  | VInt z => z =? 0
  | VFloat f => PrimFloat.eqb f 0
  | VNone | VStr _ => false
  end.

(* ===================================================================== *)
(** ** [_compute_titles] *)
(* ===================================================================== *)

Fixpoint group_keyed (keyed : list (Value * Item)) : list (Value * list Item) :=
  match keyed with
  | [] => []
  | (k, x) :: rest =>
      match group_keyed rest with
      | (k', g) :: gs =>
          if value_eqb k k' then (k, x :: g) :: gs else (k, [x]) :: (k', g) :: gs
      | [] => [(k, [x])]
      end
  end.

(** Modelled from the spec: [group_by_sorted_key_iter] of lilac/batch_utils.py
    is not among the sources. The leaf titling stage is said to group rows by
    their id with a sort-then-group over a key function: the input arrives
    sorted by the key, and each maximal run of items with one key is yielded
    as one list. An exception of the key function propagates. *)
Definition group_by_sorted_key_iter (input : list Item) (key_fn : Item -> Result Value)
    : Result (list (list Item)) :=
  (keyed <- mapM (fun value => key <- key_fn value ;; Ok (key, value)) input ;;
   Ok (map snd (group_keyed keyed)))%result.

(** The task handle whose progress fields the module writes. *)
Record TaskInfo : Type := {
  message : string;
  total_progress : Z;
  total_len : option Z
}.

Abbreviation TopicFn := (list (str * float) -> str).

(** The body of the loop over the items of a group: [None] stands for
    [continue], [Some (text, membership_prob)] for the pair appended to
    [sorted_docs]. Only a [str] text and a [float] probability can be
    appended: that is the type [topic_fn] is declared with. *)
Definition ranked_doc (text_column id_column membership_column : string) (item : Item)
    : Result (option (str * float)) :=
  match item with
  | None => Ok None
  | Some d =>
      if (size d =? 0)%nat then Ok None
      else
        (is_negative <- negative (default (VInt (-1)) (d !! id_column)) ;;
         if is_negative : bool then Ok None
         else
           let text := default VNone (d !! text_column) in
           if falsy text then Ok None
           else
             let membership_prob := default (VInt 0) (d !! membership_column) in
             if equals_zero membership_prob then Ok None
             else
               match text, membership_prob with
               | VStr s, VFloat p => Ok (Some (s, p))
               | _, _ => Raise OutsideSchema
               end)%result
  end.

Fixpoint collect_sorted_docs (text_column id_column membership_column : string)
    (group : list Item) : Result (list (str * float)) :=
  match group with
  | [] => Ok []
  | item :: rest =>
      (doc <- ranked_doc text_column id_column membership_column item ;;
       docs <- collect_sorted_docs text_column id_column membership_column rest ;;
       Ok (match doc with Some d => d :: docs | None => docs end))%result
  end.

Definition doc_eqb (a b : str * float) : bool :=
  str_eqb (fst a) (fst b) && PrimFloat.eqb (snd a) (snd b).

(** The elements of [set(sorted_docs)], each once. *)
Fixpoint dedup (docs : list (str * float)) : list (str * float) :=
  match docs with
  | [] => []
  | d :: rest => if existsb (doc_eqb d) rest then dedup rest else d :: dedup rest
  end.

Fixpoint insert_desc (x : str * float) (l : list (str * float)) : list (str * float) :=
  match l with
  | [] => [x]
  | y :: rest => if PrimFloat.ltb (snd x) (snd y) then y :: insert_desc x rest else x :: l
  end.

(** [sorted_docs.sort(key=lambda text_score: text_score[1], reverse=True)]:
    a stable sort, highest score first. *)
Definition sort_desc (l : list (str * float)) : list (str * float) :=
  fold_right insert_desc [] l.

Definition _compute_title (topic_fn : TopicFn) (sorted_docs : list (str * float))
    (group_size : nat) : nat * option str :=
  match sorted_docs with
  | [] => (group_size, None)
  | _ => (group_size, Some (topic_fn sorted_docs))
  end.

Section ComputeTitles.
(** The order in which the [n]-th group's documents leave
    [list(set(sorted_docs))] and [random.shuffle]. *)
Variable shuffle : nat -> list (str * float) -> list (str * float).

Definition delayed_job (text_column id_column membership_column : string)
    (n : nat) (group : list Item) : Result (list (str * float) * nat) :=
  (docs <- collect_sorted_docs text_column id_column membership_column group ;;
   Ok (sort_desc (shuffle n (dedup docs)), length group))%result.

Fixpoint delayed_jobs (text_column id_column membership_column : string)
    (n : nat) (groups : list (list Item)) : Result (list (list (str * float) * nat)) :=
  match groups with
  | [] => Ok []
  | group :: rest =>
      (job <- delayed_job text_column id_column membership_column n group ;;
       jobs <- delayed_jobs text_column id_column membership_column (S n) rest ;;
       Ok (job :: jobs))%result
  end.

(** The arguments of the delayed calls, one per group. *)
Definition _delayed_compute_all_titles (items : list Item)
    (text_column id_column membership_column : string)
    : Result (list (list (str * float) * nat)) :=
  (groups <- group_by_sorted_key_iter items (fun x => subscript x id_column) ;;
   delayed_jobs text_column id_column membership_column 0 groups)%result.

Definition add_progress (task_info : option TaskInfo) (n : nat) : option TaskInfo :=
  match task_info with
  | Some ti => Some {| message := message ti;
                       total_progress := total_progress ti + Z.of_nat n;
                       total_len := total_len ti |}
  | None => None
  end.

Definition reset_progress (task_info : option TaskInfo) : option TaskInfo :=
  match task_info with
  | Some ti => Some {| message := message ti; total_progress := 0;
                       total_len := total_len ti |}
  | None => None
  end.

(** The titles yielded, in order, and the task handle at the end. The
    worker pool returns the results in the order of submission. *)
Definition _compute_titles (items : list Item)
    (text_column id_column membership_column : string) (topic_fn : TopicFn)
    (task_info : option TaskInfo) : Result (list (option str) * option TaskInfo) :=
  (jobs <- _delayed_compute_all_titles items text_column id_column membership_column ;;
   Ok (fold_left
         (fun (acc : list (option str) * option TaskInfo) (job : list (str * float) * nat) =>
            let '(group_size, title) := _compute_title topic_fn (fst job) (snd job) in
            (fst acc ++ repeat title group_size, add_progress (snd acc) group_size))
         jobs ([], reset_progress task_info)))%result.
End ComputeTitles.

(* ===================================================================== *)
(** ** Traced computations *)
(* ===================================================================== *)

(** A computation that records the calls it makes, in order, and ends with
    a value or an exception. *)
Definition Traced (E A : Type) : Type := list E * Result A.

Definition ret {E A : Type} (a : A) : Traced E A := ([], Ok a).
Definition emit {E : Type} (e : E) : Traced E unit := ([e], Ok tt).
Definition raise {E A : Type} (e : Exn) : Traced E A := ([], Raise e).
Definition lift {E A : Type} (r : Result A) : Traced E A := ([], r).

Definition tbind {E A B : Type} (m : Traced E A) (k : A -> Traced E B) : Traced E B :=
  match m with
  | (t, Ok a) => let '(t', r) := k a in (t ++ t', r)
  | (t, Raise e) => (t, Raise e)
  end.

Declare Scope traced_scope.
Delimit Scope traced_scope with traced.
Notation "x <- m ;; k" := (tbind m (fun x => k))
  (at level 100, m at next level, right associativity) : traced_scope.
Notation "m ;; k" := (tbind m (fun _ => k))
  (at level 100, right associativity) : traced_scope.

Definition when {E : Type} (b : bool) (m : Traced E unit) : Traced E unit :=
  if b then m else ret tt.

Fixpoint for_each {E A : Type} (l : list A) (body : A -> Traced E unit) : Traced E unit :=
  match l with
  | [] => ret tt
  | a :: rest => (body a ;; for_each rest body)%traced
  end.

(* ===================================================================== *)
(** ** [cluster_impl] *)
(* ===================================================================== *)

Definition CLUSTER_ID : string := "cluster_id".
Definition CLUSTER_MEMBERSHIP_PROB : string := "cluster_membership_prob".
Definition CLUSTER_TITLE : string := "cluster_title".
Definition CATEGORY_ID : string := "category_id".
Definition CATEGORY_MEMBERSHIP_PROB : string := "category_membership_prob".
Definition CATEGORY_TITLE : string := "category_title".
Definition FIELD_SUFFIX : string := "cluster".
Definition TEXT_COLUMN : string := "text".

(** Modelled from the spec: [PATH_WILDCARD] of lilac/schema.py is not among
    the sources; the star is the wild card component of a path. *)
Definition PATH_WILDCARD : string := "*".

Abbreviation PathTuple := (list string).

(** A [Path] is a dotted string or a tuple of parts. *)
Inductive Path : Type :=
| PathStr (s : string)
| PathParts (parts : PathTuple).

(** [if path:] a path is truthy when it is not empty. *)
Definition path_truthy (p : Path) : bool :=
  match p with
  | PathStr s => negb (String.eqb s "")
  | PathParts parts => match parts with [] => false | _ => true end
  end.

Record Callable : Type := {
  callable_name : string;
  call : Item -> str
}.

Inductive FnOrPath : Type :=
| IsPath (p : Path)
| IsFn (f : Callable).

(** The three shapes of [input_fn_or_path]. *)
Inductive ClusterInput : Type :=
| Plain (x : FnOrPath)
| DatasetFormatInputSelector (name : string) (selector : FnOrPath).

Record DataType : Type := { type : string }.
Record Field : Type := { dtype : option DataType }.

(** The collaborators of [cluster_impl]: the path normaliser and the schema
    of lilac/schema.py, the task manager and the dataset, none of which is
    among the sources. The schema is the one [dataset.manifest()] returns
    when the function starts. *)
Record Env : Type := {
  normalize_path : Path -> PathTuple;
  has_field : PathTuple -> bool;
  get_field : PathTuple -> Field;
  get_task_info : string -> option TaskInfo;
  stats_total_count : PathTuple -> Z
}.

Inductive Stage : Type :=
| extract_text
| compute_clusters
| compute_cluster_titles
| compute_category_clusters
| compute_category_titles.

(** The last argument of the final [dataset.transform]: the six declared
    columns and the [ClusterInfo] record. *)
Record ClusterInfo : Type := {
  info_min_cluster_size : Z;
  info_remote : bool;
  info_input_path : option PathTuple
}.

Inductive DsEvent : Type :=
| GetTaskManager
| GetTaskInfo (task_id : string)
| Manifest
| SetMessage (msg : string)
| SetTotalProgress (n : Z)
| SetTotalLen (n : option Z)
| DatasetStats (path : PathTuple)
| DatasetMap (fn : Stage) (output_path : PathTuple) (overwrite : bool)
| DatasetTransform (fn : Stage) (input_path output_path : PathTuple)
    (sort_by : option PathTuple) (overwrite : bool) (schema : option ClusterInfo)
| SetCompleted (task_id : string).

(** The events through which the dataset's rows are read or written. *)
Definition touches_dataset (e : DsEvent) : bool :=
  match e with
  | DatasetStats _ | DatasetMap _ _ _ | DatasetTransform _ _ _ _ _ _ => true
  | _ => false
  end.

(** The loop that finds the last part before the first wild card. *)
Fixpoint sibling_index (path : PathTuple) (i index : nat) : nat :=
  match path with
  | [] => index
  | path_part :: rest =>
      if String.eqb path_part PATH_WILDCARD then index else sibling_index rest (S i) i
  end.

Definition sibling_output_path (path : PathTuple) : PathTuple :=
  let index := sibling_index path 0 0 in
  let parent := firstn index path in
  let sibling :=
    String.concat "_" (filter (fun p => negb (String.eqb p PATH_WILDCARD)) (skipn index path)) in
  parent ++ [(sibling ++ "__" ++ FIELD_SUFFIX)%string].

Definition string_truthy (s : option string) : bool :=
  match s with
  | Some s => negb (String.eqb s "")
  | None => false
  end.

Definition is_some {A : Type} (o : option A) : bool :=
  match o with Some _ => true | None => false end.

Definition option_path_truthy (p : option Path) : bool :=
  match p with Some p => path_truthy p | None => false end.

(** [not input_field.dtype or input_field.dtype.type != 'string'] *)
Definition not_string_field (f : Field) : bool :=
  match dtype f with
  | None => true
  | Some dt => negb (String.eqb (type dt) "string")
  end.

(** The function, as the sequence of calls it makes. The five functions
    handed to [dataset.map] and [dataset.transform] are named in the events;
    running them over the rows is the dataset's part, so [topic_fn], which
    only they use, is not an argument here. Every test of the schema reads the
    schema fetched at the start. *)
Definition cluster_impl (env : Env) (input_fn_or_path : ClusterInput)
    (output_path : option Path) (min_cluster_size : Z)
    (overwrite remote : bool) (task_id : option string) (recompute_titles : bool)
    : Traced DsEvent unit :=
  (emit GetTaskManager ;;
   task_info <-
     (if string_truthy task_id
      then (emit (GetTaskInfo (default "" task_id)) ;;
            ret (get_task_info env (default "" task_id)))
      else ret None) ;;
   emit Manifest ;;
   let input_fn_or_path :=
     match input_fn_or_path with
     | DatasetFormatInputSelector _ selector => selector
     | Plain x => x
     end in
   path <-
     match input_fn_or_path with
     | IsPath p =>
         let path := normalize_path env p in
         if negb (has_field env path)
         then raise (ValueError "Path {path} does not exist in the dataset.")
         else if not_string_field (get_field env path)
         then raise (ValueError "Path {path} must be a string field.")
         else ret (Some path)
     | IsFn _ =>
         if negb (option_path_truthy output_path)
         then raise (ValueError "output_path must be provided if input is a function.")
         else ret None
     end ;;
   cluster_output_path <-
     (if option_path_truthy output_path
      then ret (normalize_path env (default (PathParts []) output_path))
      else
        match path with
        | Some (part :: parts) => ret (sibling_output_path (part :: parts))
        | _ => raise (ValueError "input must be provided.")
        end) ;;
   let temp_text_path := cluster_output_path ++ [TEXT_COLUMN] in
   let has_task := is_some task_info in
   when (negb (has_field env temp_text_path) || overwrite)
     (when has_task (emit (SetMessage "Extracting text from items")) ;;
      emit (DatasetMap extract_text cluster_output_path true)) ;;
   when (negb (has_field env (cluster_output_path ++ [CLUSTER_ID])) || overwrite)
     (when has_task
        (emit (SetMessage "Computing clusters") ;;
         emit (SetTotalProgress 0) ;;
         emit (SetTotalLen None)) ;;
      emit (DatasetTransform compute_clusters cluster_output_path cluster_output_path
              None true None)) ;;
   when (negb (has_field env (cluster_output_path ++ [CLUSTER_TITLE]))
         || overwrite || recompute_titles)
     (when has_task
        (emit (SetMessage "Computing cluster titles") ;;
         emit (SetTotalProgress 0) ;;
         emit (DatasetStats temp_text_path) ;;
         emit (SetTotalLen (Some (stats_total_count env temp_text_path)))) ;;
      emit (DatasetTransform compute_cluster_titles cluster_output_path cluster_output_path
              (Some (cluster_output_path ++ [CLUSTER_ID])) true None)) ;;
   when (negb (has_field env (cluster_output_path ++ [CATEGORY_ID]))
         || overwrite || recompute_titles)
     (when has_task
        (emit (SetMessage "Computing super clusters") ;;
         emit (SetTotalProgress 0) ;;
         emit (SetTotalLen None)) ;;
      emit (DatasetTransform compute_category_clusters cluster_output_path
              cluster_output_path None true None)) ;;
   let category_title_path := cluster_output_path ++ [CATEGORY_TITLE] in
   when (negb (has_field env category_title_path) || overwrite || recompute_titles)
     (when has_task
        (emit (SetMessage "Computing category titles") ;;
         emit (SetTotalProgress 0) ;;
         emit (DatasetStats category_title_path) ;;
         emit (SetTotalLen (Some (stats_total_count env category_title_path)))) ;;
      emit (DatasetTransform compute_category_titles cluster_output_path
              cluster_output_path (Some (cluster_output_path ++ [CATEGORY_ID])) true
              (Some {| info_min_cluster_size := min_cluster_size;
                       info_remote := remote;
                       info_input_path :=
                         match input_fn_or_path with
                         | IsFn f => Some [callable_name f]
                         | IsPath _ => path
                         end |}))) ;;
   when (string_truthy task_id) (emit (SetCompleted (default "" task_id))))%traced.

(* ===================================================================== *)
(** ** Numeric arrays *)
(* ===================================================================== *)

Abbreviation Vector := (list float).

(** The cast to [np.float32]: the binary64 number is rounded to the nearest
    number with a 24 bit significand (ties to even), overflowing to an
    infinity; the result is again held as a binary64 number. *)
Definition to_float32 (x : float) : float :=
  match Prim2SF x with
  | S754_finite s m e => SF2Prim (binary_normalize 24 128 (cond_Zopp s (Zpos m)) e s)
  | _ => x
  end.

(** The cast to [np.int32]: two's complement wrap-around. *)
Definition to_int32 (z : Z) : Z := (z + 2 ^ 31) mod 2 ^ 32 - 2 ^ 31.

Definition is_nan (x : float) : bool := negb (PrimFloat.eqb x x).

(** The scan of [np.argmax] over one row: the first index of the maximum;
    the first NaN wins. *)
Fixpoint argmax_scan (rest : list float) (i : Z) (mp : float) (max_ind : Z) : Z :=
  match rest with
  | [] => max_ind
  | x :: rest' =>
      if negb (PrimFloat.leb x mp)
      then if is_nan x then i else argmax_scan rest' (i + 1) x i
      else argmax_scan rest' (i + 1) mp max_ind
  end.

Definition np_argmax (row : list float) : Result Z :=
  match row with
  | [] => Raise (ValueError "attempt to get argmax of an empty sequence")
  | x :: rest => Ok (if is_nan x then 0 else argmax_scan rest 1 x 0)
  end.

(** [np.maximum(a, b)] keeps [a] when [a >= b] or [a] is NaN. *)
Definition np_maximum (a b : float) : float :=
  if PrimFloat.leb b a || is_nan a then a else b.

Definition np_max (row : list float) : Result float :=
  match row with
  | [] => Raise (ValueError "zero-size array to reduction operation maximum which has no identity")
  | x :: rest => Ok (fold_left np_maximum rest x)
  end.

Fixpoint chunks_upto {A : Type} (fuel : nat) (l : list A) (size : nat) : list (list A) :=
  match fuel with
  | O => []
  | S fuel' =>
      match l with
      | [] => []
      | _ => firstn size l :: chunks_upto fuel' (skipn size l) size
      end
  end.

(** Modelled from the spec: [chunks] of lilac/utils.py is not among the
    sources. The noise points go through the soft membership computation in
    batches of the chunk size, in order; the last batch may be shorter. *)
Definition chunks {A : Type} (l : list A) (size : nat) : list (list A) :=
  chunks_upto (length l) l size.

(* ===================================================================== *)
(** ** [_hdbscan_cluster] *)
(* ===================================================================== *)

Definition MIN_CLUSTER_SIZE : Z := 5.
Definition UMAP_DIM : Z := 5.
Definition UMAP_SEED : Z := 42.
(** [0.05] as the binary64 number Python reads. *)
Definition HDBSCAN_SELECTION_EPS : float := 0x1.999999999999ap-5%float.
Definition BATCH_SOFT_CLUSTER_NOISE : nat := 1024.

Record UMAPArgs : Type := {
  n_components : Z;
  n_neighbors : Z;
  min_dist : float;
  n_jobs : Z;
  random_state : Z
}.

Record HDBSCANArgs : Type := {
  min_cluster_size : Z;
  min_samples : Z;
  cluster_selection_epsilon : float;
  cluster_selection_method : string;
  prediction_data : bool
}.

(** The fitted clusterer: its two result arrays, and what it was fitted
    with. *)
Record Clusterer : Type := {
  labels_ : list Z;
  probabilities_ : list float;
  fit_args : HDBSCANArgs;
  fit_vectors : list Vector
}.

(** What [membership_vector] returns: an array of one or of two
    dimensions. *)
Inductive SoftClusters : Type :=
| Soft1D (values : list float)
| Soft2D (rows : list (list float)).

(** The collaborators of the clustering core. [jina_compute] gives, for each
    document, the embeddings of its chunks. *)
Record World : Type := {
  compress_docs : list str -> list N;
  remote_fn : list N -> gmap string (list Dict);
  jina_compute : list str -> list (list Vector);
  umap_fit_transform : UMAPArgs -> list Vector -> list Vector;
  hdbscan_fit : HDBSCANArgs -> list Vector -> list Z * list float;
  membership_vector : Clusterer -> list Vector -> SoftClusters
}.

(** The [docs] argument: declared an iterator, which [list(docs)] exhausts;
    a list passed in its place can be read again. *)
Inductive Docs : Type :=
| DocsIterator (remaining : list str)
| DocsList (l : list str).

(** [list(docs)]: the documents read, and the argument afterwards. *)
Definition py_list (docs : Docs) : list str * Docs :=
  match docs with
  | DocsIterator remaining => (remaining, DocsIterator [])
  | DocsList l => (l, DocsList l)
  end.

Inductive Event : Type :=
| ModalLookup
| CompressDocs (docs : list str)
| RemoteCall (gzipped_docs : list N)
| Yield (item : Dict)
| JinaSetup
| JinaCompute (docs : list str)
| JinaTeardown
| UMAPFit (args : UMAPArgs) (vectors : list Vector)
| HDBSCANFit (args : HDBSCANArgs) (vectors : list Vector)
| PrintNoise (num_noisy : nat)
| MembershipVector (batch : list Vector).

(** [{CLUSTER_ID: int(cluster_id), CLUSTER_MEMBERSHIP_PROB: float(membership_prob)}] *)
Definition cluster_item (cluster_id : Z) (membership_prob : float) : Dict :=
  <[CLUSTER_ID := VInt cluster_id]>
    (<[CLUSTER_MEMBERSHIP_PROB := VFloat membership_prob]> ∅).

(** The remote branch: everything inside [if remote:]. It gives back the
    [docs] argument as the branch leaves it. *)
Definition remote_branch (w : World) (docs : Docs) : Traced Event Docs :=
  (emit ModalLookup ;;
   let '(doc_list, docs) := py_list docs in
   emit (CompressDocs doc_list) ;;
   let gzipped_docs := compress_docs w doc_list in
   emit (RemoteCall gzipped_docs) ;;
   let response := remote_fn w gzipped_docs in
   clusters <- match response !! "clusters"%string with
               | Some clusters => ret clusters
               | None => raise (KeyError "clusters")
               end ;;
   for_each clusters (fun item => emit (Yield item)) ;;
   ret docs)%traced.

(** [r[0][EMBEDDING_KEY]] *)
Definition first_embedding (r : list Vector) : Result Vector :=
  match r with
  | v :: _ => Ok v
  | [] => Raise IndexError
  end.

(** [np.array(rows, dtype=np.float32)]: the rows must have one length. *)
Definition np_array_float32 (rows : list Vector) : Result (list Vector) :=
  match rows with
  | [] => Ok []
  | v :: _ =>
      if forallb (fun r => (length r =? length v)%nat) rows
      then Ok (map (map to_float32) rows)
      else Raise (ValueError "setting an array element with a sequence")
  end.

(** The block under 'Computing embeddings' and the array built from it. *)
Definition compute_embeddings (w : World) (docs : Docs) : Traced Event (list Vector) :=
  (emit JinaSetup ;;
   let '(doc_list, _) := py_list docs in
   emit (JinaCompute doc_list) ;;
   let response := jina_compute w doc_list in
   emit JinaTeardown ;;
   rows <- lift (mapM first_embedding response) ;;
   lift (np_array_float32 rows))%traced.

Definition umap_args (n_neighbors : Z) : UMAPArgs := {|
  n_components := UMAP_DIM;
  n_neighbors := n_neighbors;
  min_dist := 0%float;
  n_jobs := -1;
  random_state := UMAP_SEED
|}.

(** The block under 'UMAP: Reducing dim'. *)
Definition reduce_dimensions (w : World) (all_vectors : list Vector)
    : Traced Event (list Vector) :=
  match all_vectors with
  | [] => raise IndexError
  | first :: _ =>
      let dim := Z.of_nat (length first) in
      let n_neighbors := Z.min 30 (Z.of_nat (length all_vectors) - 1) in
      if (UMAP_DIM <? dim) && (UMAP_DIM <? Z.of_nat (length all_vectors))
      then
        (emit (UMAPFit (umap_args n_neighbors) all_vectors) ;;
         ret (umap_fit_transform w (umap_args n_neighbors) all_vectors))%traced
      else ret all_vectors
  end.

Definition hdbscan_args (min_cluster_size : Z) : HDBSCANArgs := {|
  min_cluster_size := min_cluster_size;
  min_samples := min_cluster_size - 1;
  cluster_selection_epsilon := HDBSCAN_SELECTION_EPS;
  cluster_selection_method := "leaf";
  prediction_data := true
|}.

(** The block under 'HDBSCAN: Clustering'. *)
Definition fit_clusterer (w : World) (all_vectors : list Vector) (min_cluster_size : Z)
    : Traced Event Clusterer :=
  let min_cluster_size := Z.min min_cluster_size (Z.of_nat (length all_vectors)) in
  let args := hdbscan_args min_cluster_size in
  (emit (HDBSCANFit args all_vectors) ;;
   let '(labels, probabilities) := hdbscan_fit w args all_vectors in
   ret {| labels_ := labels; probabilities_ := probabilities;
          fit_args := args; fit_vectors := all_vectors |})%traced.

(** The loop that gathers the vectors of the noise points. *)
Fixpoint gather_noisy_vectors (labels : list Z) (i : nat) (all_vectors : list Vector)
    : Result (list Vector) :=
  match labels with
  | [] => Ok []
  | cluster_id :: rest =>
      if cluster_id =? -1
      then
        match all_vectors !! i with
        | Some v => (vs <- gather_noisy_vectors rest (S i) all_vectors ;; Ok (v :: vs))%result
        | None => Raise IndexError
        end
      else gather_noisy_vectors rest (S i) all_vectors
  end.

Definition count_noise (clusterer : Clusterer) (all_vectors : list Vector)
    : Traced Event (list Vector) :=
  (noisy_vectors <- lift (gather_noisy_vectors (labels_ clusterer) 0 all_vectors) ;;
   let num_noisy := length noisy_vectors in
   (if (length (labels_ clusterer) =? 0)%nat then raise ZeroDivisionError else ret tt) ;;
   emit (PrintNoise num_noisy) ;;
   ret noisy_vectors)%traced.

(** [soft_clusters.reshape(-1, 1)] when the array has one dimension. *)
Definition as_rows (soft_clusters : SoftClusters) : list (list float) :=
  match soft_clusters with
  | Soft1D values => map (fun x => [x]) values
  | Soft2D rows => rows
  end.

(** One turn of the loop over the batches of noise vectors: the labels and
    the probabilities appended for the batch. *)
Definition soft_cluster_batch (w : World) (clusterer : Clusterer)
    (batch_noisy_vectors : list Vector) : Traced Event (list Z * list float) :=
  let batch := map (map to_float32) batch_noisy_vectors in
  (emit (MembershipVector batch) ;;
   let soft_clusters := as_rows (membership_vector w clusterer batch) in
   labels <- lift (mapM np_argmax soft_clusters) ;;
   probs <- lift (mapM np_max soft_clusters) ;;
   ret (labels, probs))%traced.

Fixpoint soft_cluster_batches (w : World) (clusterer : Clusterer)
    (batches : list (list Vector)) : Traced Event (list (list Z) * list (list float)) :=
  match batches with
  | [] => ret ([], [])
  | batch :: rest =>
      (lp <- soft_cluster_batch w clusterer batch ;;
       lps <- soft_cluster_batches w clusterer rest ;;
       ret (fst lp :: fst lps, snd lp :: snd lps))%traced
  end.

(** The loop that writes the new labels and probabilities over the noise
    points, in place: [i] counts the positions, [noise_index] the noise
    points met so far. *)
Fixpoint assign_noise (todo i : nat) (labels : list Z) (memberships : list float)
    (noisy_labels : list Z) (noisy_probs : list float) (noise_index : nat)
    : Result (list Z * list float) :=
  match todo with
  | O => Ok (labels, memberships)
  | S todo' =>
      match labels !! i with
      | None => Ok (labels, memberships)
      | Some cluster_id =>
          if cluster_id =? -1
          then
            match noisy_labels !! noise_index with
            | None => Raise IndexError
            | Some new_label =>
                match noisy_probs !! noise_index with
                | None => Raise IndexError
                | Some new_prob =>
                    if (i <? length memberships)%nat
                    then assign_noise todo' (S i) (<[i := new_label]> labels)
                           (<[i := new_prob]> memberships)
                           noisy_labels noisy_probs (S noise_index)
                    else Raise IndexError
                end
            end
          else assign_noise todo' (S i) labels memberships noisy_labels noisy_probs noise_index
      end
  end.

(** From [noisy_labels = []] to the end of the reassignment. *)
Definition reassign_noise (w : World) (clusterer : Clusterer) (noisy_vectors : list Vector)
    : Traced Event (list Z * list float) :=
  let num_noisy := length noisy_vectors in
  let labels := labels_ clusterer in
  let memberships := probabilities_ clusterer in
  if ((0 <? num_noisy) && (num_noisy <? length (labels_ clusterer)))%nat
  then
    (lps <- soft_cluster_batches w clusterer (chunks noisy_vectors BATCH_SOFT_CLUSTER_NOISE) ;;
     let noisy_labels := map to_int32 (concat (fst lps)) in
     let noisy_probs := map to_float32 (concat (snd lps)) in
     lift (assign_noise (length labels) 0 labels memberships noisy_labels noisy_probs 0))%traced
  else ret (labels, memberships).

(** From the count of the noise points to the last [yield]. *)
Definition reassign_and_yield (w : World) (clusterer : Clusterer) (all_vectors : list Vector)
    : Traced Event unit :=
  (noisy_vectors <- count_noise clusterer all_vectors ;;
   lm <- reassign_noise w clusterer noisy_vectors ;;
   for_each (combine (fst lm) (snd lm))
     (fun cm => emit (Yield (cluster_item (fst cm) (snd cm)))))%traced.

(** Everything after the [if remote:] block. *)
Definition local_steps (w : World) (docs : Docs) (min_cluster_size : Z) : Traced Event unit :=
  (all_vectors <- compute_embeddings w docs ;;
   all_vectors <- reduce_dimensions w all_vectors ;;
   clusterer <- fit_clusterer w all_vectors min_cluster_size ;;
   reassign_and_yield w clusterer all_vectors)%traced.

(** The generator, run to its end: the calls and the yields in order, and
    how it ends. *)
Definition _hdbscan_cluster (w : World) (docs : Docs) (min_cluster_size : Z) (remote : bool)
    : Traced Event unit :=
  (docs <- (if remote then remote_branch w docs else ret docs) ;;
   local_steps w docs min_cluster_size)%traced.

(* ===================================================================== *)
(** ** Vocabulary of the statements *)
(* ===================================================================== *)

(** A run of white space. *)
Definition all_space (s : str) : Prop := Forall (fun c => is_space c = true) s.

(** The trace of a decorated call that is retried [retries] times from
    attempt [n] on: each attempt but the last is followed by one sleep. *)
Fixpoint backoff_trace (p : RetryPolicy) (random : nat -> Q) (n retries : nat)
    : list RetryEvent :=
  match retries with
  | O => [Attempt n]
  | S retries' =>
      Attempt n :: Sleep (wait_random_exponential p (random n) n)
        :: backoff_trace p random (S n) retries'
  end.

(** The contract of the retry decoration, for a wrapped function whose
    [n]-th call gives [fn n]: the calls are numbered from 1 to some
    [k <= max_attempts]; every call before the [k]-th failed with a rate limit
    or a timeout error and was followed by one sleep; the [k]-th call ends the
    run, with its result, with its exception when that is of another class,
    or, when it is the last allowed attempt and fails with a rate limit or a
    timeout error, with a [RetryError]. *)
Definition retry_contract {A : Type} (p : RetryPolicy) (max_attempts : nat)
    (fn : nat -> Result A) (random : nat -> Q) (run : list RetryEvent * Result A) : Prop :=
  exists k : nat,
    (1 <= k <= max_attempts)%nat
    /\ fst run = backoff_trace p random 1 (k - 1)
    /\ (forall n, (1 <= n < k)%nat ->
          fn n = Raise RateLimitError \/ fn n = Raise APITimeoutError)
    /\ match fn k with
       | Ok a => snd run = Ok a
       | Raise e =>
           if is_rate_limit_or_timeout e
           then k = max_attempts /\ snd run = Raise (RetryError e)
           else snd run = Raise e
       end.

(** The bound on a sleep after attempt [n]: at most half a second doubled
    for each earlier attempt, and never more than sixty seconds. *)
Definition backoff_bound (n : nat) : Q :=
  Qmin ((1 # 2) * inject_Z (2 ^ Z.of_nat (n - 1))) 60.

(** A row typed as the output schema declares: an integer id, a text that
    is absent, null or a string, a membership probability that is absent or
    a float. *)
Definition typed_row (text_column id_column membership_column : string) (item : Item) : bool :=
  match item with
  | None => false
  | Some d =>
      match d !! id_column with Some (VInt _) => true | _ => false end
      && match d !! text_column with None | Some VNone | Some (VStr _) => true | _ => false end
      && match d !! membership_column with None | Some (VFloat _) => true | _ => false end
  end.

(** The row from which a ranked document comes: its id is not negative, its
    text is the document and is not empty, its membership probability is the
    document's score and is not zero. *)
Definition row_qualifies (text_column id_column membership_column : string)
    (item : Item) (doc : str * float) : Prop :=
  exists (d : Dict) (k : Z),
    item = Some d
    /\ d !! id_column = Some (VInt k) /\ 0 <= k
    /\ d !! text_column = Some (VStr (fst doc)) /\ fst doc <> []
    /\ d !! membership_column = Some (VFloat (snd doc))
    /\ PrimFloat.eqb (snd doc) 0 = false.

(** All rows of the group carry the id [k]. *)
Definition group_has_id (id_column : string) (group : list Item) (k : Z) : Prop :=
  Forall (fun item => subscript item id_column = Ok (VInt k)) group.

(** The title of a group whose ranked documents are [ranked]: none when
    there is no document, else what the topic function makes of them. *)
Definition title_of (topic_fn : TopicFn) (ranked : list (str * float)) : option str :=
  match ranked with
  | [] => None
  | _ => Some (topic_fn ranked)
  end.

(** What links a group to the ranked documents handed to the topic
    function for it: every ranked document comes from a qualifying row of the
    group, and a group with a negative id has none. *)
Definition ranked_from (text_column id_column membership_column : string)
    (group : list Item) (ranked : list (str * float)) : Prop :=
  (forall doc, doc ∈ ranked ->
     exists item, item ∈ group
       /\ row_qualifies text_column id_column membership_column item doc)
  /\ (forall k, group_has_id id_column group k -> k < 0 -> ranked = []).

(** The titles of the rows: each group's title once per row of the group,
    group after group. *)
Definition broadcast_titles (topic_fn : TopicFn) (groups : list (list Item))
    (ranked : list (list (str * float))) : list (option str) :=
  concat (zip_with (fun group r => repeat (title_of topic_fn r) (length group)) groups ranked).

(** Projections of a trace on one kind of event. *)
Definition umap_call (e : Event) : option (UMAPArgs * list Vector) :=
  match e with UMAPFit args vectors => Some (args, vectors) | _ => None end.

Definition hdbscan_call (e : Event) : option (HDBSCANArgs * list Vector) :=
  match e with HDBSCANFit args vectors => Some (args, vectors) | _ => None end.

Definition membership_call (e : Event) : option (list Vector) :=
  match e with MembershipVector batch => Some batch | _ => None end.

Definition yielded (e : Event) : option Dict :=
  match e with Yield item => Some item | _ => None end.

(** The clusterer the run fits on [all_vectors]. *)
Definition fitted (w : World) (all_vectors : list Vector) (min_cluster_size : Z) : Clusterer :=
  let args := hdbscan_args (Z.min min_cluster_size (Z.of_nat (length all_vectors))) in
  {| labels_ := fst (hdbscan_fit w args all_vectors);
     probabilities_ := snd (hdbscan_fit w args all_vectors);
     fit_args := args;
     fit_vectors := all_vectors |}.

(** The events that can follow the fit of the clusterer. *)
Definition after_fit_event (e : Event) : bool :=
  match e with
  | PrintNoise _ | MembershipVector _ | Yield _ => true
  | _ => false
  end.

(* ===================================================================== *)
(** ** A small world for worked examples *)
(* ===================================================================== *)

Definition doc_a : str := lit "a".
Definition doc_b : str := lit "b".

(** [0.1] and [0.05] as binary64 numbers. *)
Definition tenth : float := 0x1.999999999999ap-4%float.
Definition twentieth : float := 0x1.999999999999ap-5%float.

(** Collaborators that answer in the simplest way: six-dimensional
    embeddings, a reduction that keeps the first components, a clusterer that
    puts every point in cluster 0, except the first one when [noisy_first] is
    set, and soft memberships of one tenth and one twentieth. *)
Definition example_world (noisy_first : bool) : World := {|
  compress_docs := fun docs => concat docs;
  remote_fn := fun _ =>
    {[ "clusters"%string := [cluster_item 0 1%float; cluster_item 0 1%float] ]};
  jina_compute := map (fun _ => [[1; 2; 3; 4; 5; 6]%float]);
  umap_fit_transform := fun args vectors =>
    map (firstn (Z.to_nat (n_components args))) vectors;
  hdbscan_fit := fun _ vectors =>
    match vectors with
    | [] => ([], [])
    | _ :: rest =>
        ((if noisy_first then -1 else 0) :: map (fun _ => 0) rest,
         (if noisy_first then 0%float else 1%float) :: map (fun _ => 1%float) rest)
    end;
  membership_vector := fun _ batch => Soft2D (map (fun _ => [tenth; twentieth]) batch)
|}.

(** What [cluster_impl] does before it looks at its input: it fetches the
    task manager, the task handle when a task id is given, and the schema. *)
Definition preamble (task_id : option string) : list DsEvent :=
  GetTaskManager
    :: (if string_truthy task_id then [GetTaskInfo (default "" task_id)] else [])
    ++ [Manifest].

(** A dataset with a string field [text] and an integer field [count]. *)
Definition example_env : Env := {|
  normalize_path := fun p => match p with PathStr s => [s] | PathParts parts => parts end;
  has_field := fun path =>
    match path with
    | [name] => String.eqb name "text" || String.eqb name "count"
    | _ => false
    end;
  get_field := fun path =>
    match path with
    | [name] => if String.eqb name "text" then {| dtype := Some {| type := "string" |} |}
                else {| dtype := Some {| type := "int32" |} |}
    | _ => {| dtype := None |}
    end;
  get_task_info := fun _ => None;
  stats_total_count := fun _ => 0
|}.

(* ===================================================================== *)
(** ** Vocabulary of the noise reassignment *)
(* ===================================================================== *)

(** A noise point carries the label -1. *)
Definition is_noise (label : Z) : bool := label =? -1.

Definition num_noise (labels : list Z) : nat := length (List.filter is_noise labels).

(** The number of noise points before position [i]. *)
Definition noise_rank (labels : list Z) (i : nat) : nat := num_noise (take i labels).

(** The vectors of the noise points, in order. *)
Fixpoint noise_vectors (labels : list Z) (vectors : list Vector) : list Vector :=
  match labels, vectors with
  | label :: labels', v :: vectors' =>
      if is_noise label then v :: noise_vectors labels' vectors'
      else noise_vectors labels' vectors'
  | _, _ => []
  end.

(** The soft membership rows the fitted clusterer gives for one batch. *)
Definition rows_of (w : World) (c : Clusterer) (batch : list Vector) : list (list float) :=
  as_rows (membership_vector w c (map (map to_float32) batch)).

(** The soft membership vectors of the noise points, in order: the [j]-th
    row belongs to the [j]-th noise point. *)
Definition soft_rows (w : World) (c : Clusterer) (noisy : list Vector) : list (list float) :=
  concat (map (rows_of w c) (chunks noisy BATCH_SOFT_CLUSTER_NOISE)).

(** [old] with the entries at the noise positions replaced, in order, by
    the entries of [new]. *)
Fixpoint reassigned {A : Type} (labels : list Z) (old new : list A) : list A :=
  match labels, old with
  | label :: labels', o :: old' =>
      if is_noise label
      then match new with
           | n :: new' => n :: reassigned labels' old' new'
           | [] => old
           end
      else o :: reassigned labels' old' new
  | _, _ => old
  end.

(** What is said of the noise points of a run whose fitted clusterer is [c]
    on the vectors [vectors] and whose yielded items are [items]: the item at
    the position of each noise point carries the index of the first maximum
    of the point's soft membership vector as cluster id, and that maximum,
    passed through [cast], as membership probability. *)
Definition noise_points_assigned (cast : float -> float) (w : World) (c : Clusterer)
    (vectors : list Vector) (items : list Dict) : Prop :=
  forall i : nat,
    labels_ c !! i = Some (-1) ->
    exists (row : list float) (a : Z) (p : float),
      soft_rows w c (noise_vectors (labels_ c) vectors) !! noise_rank (labels_ c) i = Some row
      /\ np_argmax row = Ok a
      /\ np_max row = Ok p
      /\ row !! Z.to_nat a = Some p
      /\ items !! i = Some (cluster_item a (cast p)).

(** The other points keep the label and the probability of the fit. *)
Definition clustered_points_kept (c : Clusterer) (items : list Dict) : Prop :=
  forall (i : nat) (label : Z) (prob : float),
    labels_ c !! i = Some label -> label <> -1 ->
    probabilities_ c !! i = Some prob ->
    items !! i = Some (cluster_item label prob).

(** The embeddings of two documents in the example world. *)
Definition example_vectors : list Vector :=
  [[1; 2; 3; 4; 5; 6]%float; [1; 2; 3; 4; 5; 6]%float].

(** The membership probability an item carries, compared with a float as
    Python's [==] does. *)
Definition prob_equals (item : option Dict) (x : float) : bool :=
  match item with
  | Some d =>
      match d !! CLUSTER_MEMBERSHIP_PROB with
      | Some (VFloat p) => PrimFloat.eqb p x
      | _ => false
      end
  | None => false
  end.

(** Three rows of the leaf titling stage: two of cluster 3, one noise
    row. *)
Definition example_rows : list Item :=
  [Some (<["cluster_id"%string := VInt 3]>
           (<["text"%string := VStr doc_a]>
              (<["cluster_membership_prob"%string := VFloat 1%float]> ∅)));
   Some (<["cluster_id"%string := VInt 3]>
           (<["text"%string := VStr doc_b]>
              (<["cluster_membership_prob"%string := VFloat tenth]> ∅)));
   Some (<["cluster_id"%string := VInt (-1)]>
           (<["text"%string := VStr doc_b]>
              (<["cluster_membership_prob"%string := VFloat 0%float]> ∅)))].

(** A topic function that answers with the best document. *)
Definition first_doc : TopicFn := fun docs =>
  match docs with
  | (text, _) :: _ => text
  | [] => []
  end.

(** [random.shuffle] leaving the order as it is: one of its outcomes. *)
Definition keep_order (n : nat) (l : list (str * float)) : list (str * float) := l.

(* ===================================================================== *)
(** ** Further vocabulary: the labelers *)
(* ===================================================================== *)

(** The time a decorated call spends asleep: the sum of its sleeps. *)
Fixpoint total_sleep (events : list RetryEvent) : Q :=
  match events with
  | [] => 0
  | Sleep seconds :: rest => seconds + total_sleep rest
  | Attempt _ :: rest => total_sleep rest
  end.

(** The sum of the bounds of the sleeps after the attempts [n], [n+1], ...,
    [n + retries - 1]. *)
Fixpoint backoff_budget (n retries : nat) : Q :=
  match retries with
  | O => 0
  | S retries' => backoff_bound n + backoff_budget (S n) retries'
  end.

(** A backend whose first two calls hit the rate limit and whose third
    call answers, with every random draw at one half. *)
Definition example_ai : OpenAI := {|
  openai_installed := true;
  chat_completions_create := fun _ n =>
    if (n <? 3)%nat then Raise RateLimitError else Ok doc_a;
  backoff_random := fun _ => 1 # 2
|}.

(* ===================================================================== *)
(** ** Further vocabulary: [_compute_titles] *)
(* ===================================================================== *)

(** No document is directly followed by one with a strictly higher
    score. *)
Definition descending (l : list (str * float)) : Prop :=
  forall (i : nat) (a b : str * float),
    l !! i = Some a -> l !! S i = Some b -> PrimFloat.ltb (snd a) (snd b) = false.

(** The same, said along the list. *)
Fixpoint desc_chain (l : list (str * float)) : Prop :=
  match l with
  | a :: rest =>
      match rest with
      | b :: _ => PrimFloat.ltb (snd a) (snd b) = false /\ desc_chain rest
      | [] => True
      end
  | [] => True
  end.

(** The task handle after [n] rows have been reported on a handle that
    started as [ti]. *)
Definition progressed (ti : TaskInfo) (n : nat) : TaskInfo :=
  {| message := message ti; total_progress := Z.of_nat n; total_len := total_len ti |}.

(** The two rows of cluster 3 of the example. *)
Definition example_group : list Item := take 2 example_rows.

(** A task handle at the start of a stage. *)
Definition example_task : TaskInfo :=
  {| message := "Computing cluster titles"; total_progress := 7; total_len := Some 3 |}.

(* ===================================================================== *)
(** ** Further vocabulary: [cluster_impl] *)
(* ===================================================================== *)

(** The stage a dataset call runs. *)
Definition stage_of (e : DsEvent) : option Stage :=
  match e with
  | DatasetMap fn _ _ => Some fn
  | DatasetTransform fn _ _ _ _ _ => Some fn
  | _ => None
  end.

Definition ALL_STAGES : list Stage :=
  [extract_text; compute_clusters; compute_cluster_titles; compute_category_clusters;
   compute_category_titles].

(** The column whose presence lets a stage be skipped. *)
Definition stage_target (s : Stage) : string :=
  match s with
  | extract_text => TEXT_COLUMN
  | compute_clusters => CLUSTER_ID
  | compute_cluster_titles => CLUSTER_TITLE
  | compute_category_clusters => CATEGORY_ID
  | compute_category_titles => CATEGORY_TITLE
  end.

(** The stages that [recompute_titles] forces. *)
Definition titles_stage (s : Stage) : bool :=
  match s with
  | extract_text | compute_clusters => false
  | _ => true
  end.

(** A stage runs when its column is missing, when [overwrite] is set, or,
    for the stages from the leaf titles on, when [recompute_titles] is set. *)
Definition stage_needed (env : Env) (out : PathTuple) (overwrite recompute_titles : bool)
    (s : Stage) : bool :=
  negb (has_field env (out ++ [stage_target s])) || overwrite
  || (recompute_titles && titles_stage s).

(** The function or path the run works on. *)
Definition selected (input : ClusterInput) : FnOrPath :=
  match input with
  | Plain x => x
  | DatasetFormatInputSelector _ selector => selector
  end.

(** The path under which a run writes: the given output path, or else the
    sibling of the input path. *)
Definition target_path (env : Env) (input : ClusterInput) (output_path : option Path)
    : option PathTuple :=
  if option_path_truthy output_path
  then Some (normalize_path env (default (PathParts []) output_path))
  else
    match selected input with
    | IsPath p =>
        match normalize_path env p with
        | [] => None
        | path => Some (sibling_output_path path)
        end
    | IsFn _ => None
    end.

(** A computation that only records events. *)
Definition events_only (l : list DsEvent) : Traced DsEvent unit := (l, Ok tt).

(** [m] after the events [l]. *)
Definition after_events {A : Type} (l : list DsEvent) (m : Traced DsEvent A)
    : Traced DsEvent A :=
  (l ++ fst m, snd m).

(** The path of the input, when the input is an accepted path. *)
Definition accepted_path (env : Env) (input : ClusterInput) : option PathTuple :=
  match selected input with
  | IsPath p =>
      let path := normalize_path env p in
      if negb (has_field env path) || not_string_field (get_field env path)
      then None else Some path
  | IsFn _ => None
  end.

(** The path under which an accepted run writes; none when the run raises
    before its first stage. *)
Definition accepted_target (env : Env) (input : ClusterInput) (output_path : option Path)
    : option PathTuple :=
  match selected input with
  | IsPath p =>
      match accepted_path env input with
      | Some path => target_path env input output_path
      | None => None
      end
  | IsFn _ => target_path env input output_path
  end.

(** The message of the [ValueError] with which an input is rejected. *)
Definition rejection_message (env : Env) (input : ClusterInput) : string :=
  match selected input with
  | IsPath p =>
      if negb (has_field env (normalize_path env p))
      then "Path {path} does not exist in the dataset."
      else if not_string_field (get_field env (normalize_path env p))
      then "Path {path} must be a string field."
      else "input must be provided."
  | IsFn _ => "output_path must be provided if input is a function."
  end.

(** The [ClusterInfo] written with the last stage. *)
Definition cluster_info (env : Env) (input : ClusterInput) (m : Z) (remote : bool)
    : ClusterInfo :=
  {| info_min_cluster_size := m;
     info_remote := remote;
     info_input_path :=
       match selected input with
       | IsFn f => Some [callable_name f]
       | IsPath _ => accepted_path env input
       end |}.

(** The events of one stage: the progress fields set on the task handle,
    when there is one, then the dataset call. *)
Definition stage_events (env : Env) (out : PathTuple) (has_task : bool)
    (info : ClusterInfo) (s : Stage) : list DsEvent :=
  match s with
  | extract_text =>
      (if has_task then [SetMessage "Extracting text from items"] else [])
      ++ [DatasetMap extract_text out true]
  | compute_clusters =>
      (if has_task
       then [SetMessage "Computing clusters"; SetTotalProgress 0; SetTotalLen None]
       else [])
      ++ [DatasetTransform compute_clusters out out None true None]
  | compute_cluster_titles =>
      (if has_task
       then [SetMessage "Computing cluster titles"; SetTotalProgress 0;
             DatasetStats (out ++ [TEXT_COLUMN]);
             SetTotalLen (Some (stats_total_count env (out ++ [TEXT_COLUMN])))]
       else [])
      ++ [DatasetTransform compute_cluster_titles out out (Some (out ++ [CLUSTER_ID]))
            true None]
  | compute_category_clusters =>
      (if has_task
       then [SetMessage "Computing super clusters"; SetTotalProgress 0; SetTotalLen None]
       else [])
      ++ [DatasetTransform compute_category_clusters out out None true None]
  | compute_category_titles =>
      (if has_task
       then [SetMessage "Computing category titles"; SetTotalProgress 0;
             DatasetStats (out ++ [CATEGORY_TITLE]);
             SetTotalLen (Some (stats_total_count env (out ++ [CATEGORY_TITLE])))]
       else [])
      ++ [DatasetTransform compute_category_titles out out (Some (out ++ [CATEGORY_ID]))
            true (Some info)]
  end.

(** Whether the run has a task handle. *)
Definition has_task_info (env : Env) (task_id : option string) : bool :=
  string_truthy task_id && is_some (get_task_info env (default "" task_id)).

(** The events of an accepted run that writes under [out]. *)
Definition accepted_trace (env : Env) (input : ClusterInput) (m : Z)
    (overwrite remote : bool) (task_id : option string) (recompute_titles : bool)
    (out : PathTuple) : list DsEvent :=
  preamble task_id
  ++ flat_map
       (fun s => if stage_needed env out overwrite recompute_titles s
                 then stage_events env out (has_task_info env task_id)
                        (cluster_info env input m remote) s
                 else [])
       ALL_STAGES
  ++ (if string_truthy task_id then [SetCompleted (default "" task_id)] else []).

(** The calls that write to the dataset, in order. *)
Definition dataset_writes (trace : list DsEvent) : list DsEvent :=
  List.filter (fun e => is_some (stage_of e)) trace.

(** A dataset call that overwrites, and reads and writes under [out]. *)
Definition writes_under (out : PathTuple) (e : DsEvent) : Prop :=
  match e with
  | DatasetMap _ output_path overwrite => overwrite = true /\ output_path = out
  | DatasetTransform _ input_path output_path _ overwrite _ =>
      overwrite = true /\ input_path = out /\ output_path = out
  | _ => True
  end.

Definition is_completion (e : DsEvent) : bool :=
  match e with
  | SetCompleted _ => true
  | _ => false
  end.

(** A dataset in which every field exists and is a string field. *)
Definition complete_env : Env := {|
  normalize_path := fun p => match p with PathStr s => [s] | PathParts parts => parts end;
  has_field := fun _ => true;
  get_field := fun _ => {| dtype := Some {| type := "string" |} |};
  get_task_info := fun _ => Some example_task;
  stats_total_count := fun _ => 3
|}.

(* ===================================================================== *)
(** ** Further vocabulary: [_hdbscan_cluster] *)
(* ===================================================================== *)

(** A world whose remote service answers without the key [clusters]. *)
Definition keyless_remote_world : World := {|
  compress_docs := compress_docs (example_world false);
  remote_fn := fun _ => ∅;
  jina_compute := jina_compute (example_world false);
  umap_fit_transform := umap_fit_transform (example_world false);
  hdbscan_fit := hdbscan_fit (example_world false);
  membership_vector := membership_vector (example_world false)
|}.

(* ===================================================================== *)
(** ** The stage functions of [cluster_impl] *)
(* ===================================================================== *)

Module Stages.

(** [{**item, CLUSTER_TITLE: title}] *)
Definition with_title (item : Item) (title : option str) : Result Dict :=
  match item with
  | Some d => Ok (<[CLUSTER_TITLE := match title with Some t => VStr t | None => VNone end]> d)
  | None => Raise TypeError
  end.

(** The stage function [compute_cluster_titles] of [cluster_impl], run to
    its end: the rows it yields and the task handle afterwards. *)
Definition compute_cluster_titles (shuffle : nat -> list (str * float) -> list (str * float))
    (topic_fn : TopicFn) (task_info : option TaskInfo) (items : list Item)
    : Result (list Dict * option TaskInfo) :=
  (titles <- _compute_titles shuffle items TEXT_COLUMN CLUSTER_ID CLUSTER_MEMBERSHIP_PROB
               topic_fn task_info ;;
   rows <- mapM (fun it => with_title (fst it) (snd it)) (combine items (fst titles)) ;;
   Ok (rows, snd titles))%result.

End Stages.

(* ===================================================================== *)
(** ** Vocabulary of the groups and their ranked documents *)
(* ===================================================================== *)

(** No id is shared by two neighbouring groups: with groups of one id each
    that follow one another, the groups are the maximal runs of rows of one
    id. *)
Fixpoint maximal_runs (id_column : string) (groups : list (list Item)) : Prop :=
  match groups with
  | g1 :: rest =>
      match rest with
      | g2 :: _ =>
          (forall k, group_has_id id_column g1 k -> ~ group_has_id id_column g2 k)
          /\ maximal_runs id_column rest
      | [] => True
      end
  | [] => True
  end.

(** No two of the documents are equal as Python compares them. *)
Fixpoint distinct_docs (docs : list (str * float)) : Prop :=
  match docs with
  | [] => True
  | d :: rest => Forall (fun d' => doc_eqb d d' = false) rest /\ distinct_docs rest
  end.

(** The ranked documents of a group, exactly: they come from the
    qualifying rows of the group (so a group with a negative id has none),
    the document of every qualifying row of the group is among them, no
    document is there twice, and the scores descend. (Among documents of
    one score the order is the one the random shuffle left.) *)
Definition ranked_exactly (text_column id_column membership_column : string)
    (group : list Item) (ranked : list (str * float)) : Prop :=
  ranked_from text_column id_column membership_column group ranked
  /\ (forall item doc, item ∈ group ->
        row_qualifies text_column id_column membership_column item doc -> doc ∈ ranked)
  /\ distinct_docs ranked
  /\ descending ranked.

(** Neighbouring keys differ. *)
Fixpoint adjacent_keys (l : list (Value * list Item)) : Prop :=
  match l with
  | a :: rest =>
      match rest with
      | b :: _ => value_eqb (fst a) (fst b) = false /\ adjacent_keys rest
      | [] => True
      end
  | [] => True
  end.

(* ===================================================================== *)
(** ** Properties of the snippet shortener *)
(* ===================================================================== *)

Lemma lstrip_split (s : str) :
  exists l, s = l ++ lstrip s /\ all_space l.
Proof.
  induction s as [|c s IH]; simpl.
  - exists []. split; [reflexivity | constructor].
  - destruct (is_space c) eqn:Hc.
    + destruct IH as (l & Hl & Hsp). exists (c :: l). split.
      * simpl. congruence.
      * constructor; assumption.
    + exists []. split; [reflexivity | constructor].
Qed.

Lemma lstrip_head (s : str) (c : char) :
  head (lstrip s) = Some c -> is_space c = false.
Proof.
  induction s as [|x s IH]; simpl; [discriminate|].
  destruct (is_space x) eqn:Hx; [exact IH|].
  simpl. intros [= <-]. exact Hx.
Qed.

Lemma rstrip_split (s : str) :
  exists r, s = rstrip s ++ r /\ all_space r.
Proof.
  unfold rstrip. destruct (lstrip_split (reverse s)) as (l & Hl & Hsp).
  exists (reverse l). split.
  - rewrite <- reverse_app, <- Hl, reverse_involutive. reflexivity.
  - unfold all_space in *. rewrite Forall_forall in *.
    intros c Hc. apply Hsp. apply elem_of_reverse. exact Hc.
Qed.

Lemma rstrip_last (s : str) (c : char) :
  last (rstrip s) = Some c -> is_space c = false.
Proof.
  unfold rstrip. rewrite last_reverse. apply lstrip_head.
Qed.

Lemma rstrip_head (s : str) (c : char) :
  head (rstrip s) = Some c -> head s = Some c.
Proof.
  destruct (rstrip_split s) as (r & Hs & _). intros H.
  rewrite Hs. destruct (rstrip s); simpl in *; [discriminate | assumption].
Qed.

Lemma strip_split (text : str) :
  exists l r, text = l ++ strip text ++ r /\ all_space l /\ all_space r.
Proof.
  unfold strip.
  destruct (lstrip_split text) as (l & Hl & Hsl).
  destruct (rstrip_split (lstrip text)) as (r & Hr & Hsr).
  exists l, r. split; [|split; assumption]. rewrite <- Hr. exact Hl.
Qed.

Lemma strip_head (text : str) (c : char) :
  head (strip text) = Some c -> is_space c = false.
Proof. unfold strip. intros H. apply rstrip_head in H. eapply lstrip_head; eassumption. Qed.

Lemma strip_last (text : str) (c : char) :
  last (strip text) = Some c -> is_space c = false.
Proof. unfold strip. apply rstrip_last. Qed.

(** C6: the snippet shortener strips the surrounding white space (the
    stripped text is the input without a run of white space at each end, and
    neither starts nor ends with white space), returns the stripped text
    unchanged when it has at most 400 characters, and otherwise returns its
    first 200 characters, the marker made of a newline, three dots and a
    newline (the code points 10, 46, 46, 46, 10), and its last 200
    characters, so both ends are kept. *)
Theorem snippet_to_prefix_and_suffix_spec (text : str) :
  let stripped := strip text in
  (exists l r, text = l ++ stripped ++ r /\ all_space l /\ all_space r)
  /\ (forall c, head stripped = Some c -> is_space c = false)
  /\ (forall c, last stripped = Some c -> is_space c = false)
  /\ _snippet_to_prefix_and_suffix text =
       (if (length stripped <=? 400)%nat then stripped
        else take 200 stripped ++ [10; 46; 46; 46; 10]%N ++ drop (length stripped - 200) stripped)
  /\ ((400 < length stripped)%nat ->
       length (take 200 stripped) = 200%nat
       /\ length (drop (length stripped - 200) stripped) = 200%nat
       /\ take 200 stripped `prefix_of` stripped
       /\ drop (length stripped - 200) stripped `suffix_of` stripped
       /\ length (_snippet_to_prefix_and_suffix text) = 405%nat).
Proof.
  intros stripped. split; [apply strip_split|].
  split; [apply strip_head|]. split; [apply strip_last|].
  assert (Heq : _snippet_to_prefix_and_suffix text =
    (if (length stripped <=? 400)%nat then stripped
     else take 200 stripped ++ [10; 46; 46; 46; 10]%N ++ drop (length stripped - 200) stripped)).
  { unfold _snippet_to_prefix_and_suffix. fold stripped.
    change _SHORTEN_LEN with 400%nat.
    destruct (length stripped <=? 400)%nat; reflexivity. }
  split; [exact Heq|].
  intros Hlen.
  assert (H1 : length (take 200 stripped) = 200%nat) by (rewrite length_take; lia).
  assert (H2 : length (drop (length stripped - 200) stripped) = 200%nat)
    by (rewrite length_drop; lia).
  repeat split; try assumption.
  - apply prefix_take.
  - apply suffix_drop.
  - rewrite Heq. destruct (Nat.leb_spec (length stripped) 400); [lia|].
    rewrite !length_app, H1, H2. reflexivity.
Qed.

(* ===================================================================== *)
(** ** Properties of the retry decoration *)
(* ===================================================================== *)

Lemma is_rate_limit_or_timeout_true (e : Exn) :
  is_rate_limit_or_timeout e = true -> e = RateLimitError \/ e = APITimeoutError.
Proof. destruct e; simpl; intros H; try discriminate; auto. Qed.

(** The loop started at attempt [n] with [left] attempts to spare stops at
    some attempt [k] between [n] and [n + left]. *)
Lemma retrying_stops {A : Type} (fn : nat -> Result A) (random : nat -> Q) (left n : nat) :
  exists k : nat,
    (n <= k <= n + left)%nat
    /\ fst (retrying request_policy fn random left n)
       = backoff_trace request_policy random n (k - n)
    /\ (forall m, (n <= m < k)%nat ->
          fn m = Raise RateLimitError \/ fn m = Raise APITimeoutError)
    /\ match fn k with
       | Ok a => snd (retrying request_policy fn random left n) = Ok a
       | Raise e =>
           if is_rate_limit_or_timeout e
           then k = (n + left)%nat
                /\ snd (retrying request_policy fn random left n) = Raise (RetryError e)
           else snd (retrying request_policy fn random left n) = Raise e
       end.
Proof.
  revert n. induction left as [|left IH]; intros n.
  - exists n. simpl. rewrite Nat.sub_diag.
    destruct (fn n) as [a|e] eqn:Hfn; simpl.
    + repeat split; try lia.
    + destruct (is_rate_limit_or_timeout e) eqn:He; simpl; repeat split; try lia.
  - simpl. destruct (fn n) as [a|e] eqn:Hfn.
    + exists n. rewrite Nat.sub_diag, Hfn. simpl. repeat split; try lia.
    + destruct (is_rate_limit_or_timeout e) eqn:He; simpl.
      * destruct (IH (S n)) as (k & Hk & Htrace & Hbefore & Hlast).
        exists k.
        destruct (retrying request_policy fn random left (S n)) as [events r] eqn:Hrun.
        simpl in *.
        replace (k - n)%nat with (S (k - S n)) by lia. simpl.
        split; [lia|]. split; [rewrite Htrace; reflexivity|].
        split.
        -- intros m Hm. destruct (Nat.eq_dec m n) as [->|Hne].
           ++ rewrite Hfn. apply is_rate_limit_or_timeout_true in He.
              destruct He as [-> | ->]; auto.
           ++ apply Hbefore. lia.
        -- destruct (fn k) as [a|e']; [exact Hlast|].
           destruct (is_rate_limit_or_timeout e'); [|exact Hlast].
           destruct Hlast as [-> ->]. split; [lia | reflexivity].
      * exists n. rewrite Nat.sub_diag, Hfn, He. simpl. repeat split; try lia.
Qed.

Lemma retry_follows_contract {A : Type} (fn : nat -> Result A) (random : nat -> Q) :
  retry_contract request_policy 10 fn random (retry request_policy fn random).
Proof.
  unfold retry, retry_contract.
  change (stop_after_attempt request_policy - 1)%nat with 9%nat.
  destruct (retrying_stops fn random 9 1) as (k & Hk & Htrace & Hbefore & Hlast).
  exists k. split; [lia|]. split; [exact Htrace|]. split; [exact Hbefore|].
  destruct (fn k) as [a|e]; [exact Hlast|].
  destruct (is_rate_limit_or_timeout e); [|exact Hlast].
  destruct Hlast as [Hk' Hr]. split; [lia | exact Hr].
Qed.

Lemma wait_exponential_bound (n : nat) :
  (wait_exponential request_policy n == backoff_bound n)%Q
  /\ (0 <= backoff_bound n)%Q /\ (backoff_bound n <= 60)%Q.
Proof.
  unfold wait_exponential, backoff_bound. simpl wait_multiplier. simpl wait_max.
  set (e := ((1 # 2) * inject_Z (2 ^ Z.of_nat (n - 1)))%Q).
  assert (He : (0 <= e)%Q).
  { unfold e. apply Qmult_le_0_compat; [discriminate|].
    change 0%Q with (inject_Z 0). rewrite <- Zle_Qle.
    apply Z.pow_nonneg. lia. }
  assert (Hmin : (0 <= Qmin e 60)%Q).
  { apply Q.min_glb; [exact He | discriminate]. }
  split; [|split].
  - apply Q.max_r. exact Hmin.
  - exact Hmin.
  - apply Q.le_min_r.
Qed.

Lemma wait_random_exponential_bound (u : Q) (n : nat) :
  (0 <= u)%Q -> (u <= 1)%Q ->
  (0 <= wait_random_exponential request_policy u n)%Q
  /\ (wait_random_exponential request_policy u n <= backoff_bound n)%Q.
Proof.
  intros H0 H1. unfold wait_random_exponential.
  destruct (wait_exponential_bound n) as (Heq & Hlo & Hhi).
  rewrite Heq. split.
  - apply Qmult_le_0_compat; assumption.
  - apply Qle_trans with (1 * backoff_bound n)%Q.
    + apply Qmult_le_compat_r; assumption.
    + rewrite Qmult_1_l. apply Qle_refl.
Qed.


(* ===================================================================== *)
(** ** Properties of [_compute_titles] *)
(* ===================================================================== *)

Lemma insert_desc_perm (x : str * float) (l : list (str * float)) :
  insert_desc x l ≡ₚ x :: l.
Proof.
  induction l as [|y l IH]; simpl; [reflexivity|].
  destruct (PrimFloat.ltb (snd x) (snd y)); [|reflexivity].
  rewrite IH. apply Permutation_swap.
Qed.

Lemma sort_desc_perm (l : list (str * float)) : sort_desc l ≡ₚ l.
Proof.
  induction l as [|x l IH]; simpl; [reflexivity|].
  rewrite insert_desc_perm, IH. reflexivity.
Qed.

Lemma dedup_elem (x : str * float) (l : list (str * float)) :
  x ∈ dedup l -> x ∈ l.
Proof.
  induction l as [|y l IH]; simpl; [auto|].
  destruct (existsb (doc_eqb y) l).
  - intros H. right. auto.
  - intros H. apply elem_of_cons in H as [-> | H]; [left | right; auto].
Qed.

Lemma group_keyed_spec (id_column : string) (keyed : list (Value * Item)) :
  Forall (fun kx => exists z, fst kx = VInt z /\ subscript (snd kx) id_column = Ok (VInt z))
    keyed ->
  concat (map snd (group_keyed keyed)) = map snd keyed
  /\ Forall (fun kg => snd kg <> []
                       /\ exists z, fst kg = VInt z /\ group_has_id id_column (snd kg) z)
       (group_keyed keyed).
Proof.
  induction keyed as [|[k x] rest IH]; intros Hall.
  - simpl. split; [reflexivity | constructor].
  - apply Forall_cons in Hall as [(z & Hk & Hx) Hrest]. simpl in Hk, Hx. subst k.
    destruct (IH Hrest) as [Hcat Hgroups]. simpl.
    destruct (group_keyed rest) as [|[k' g] gs] eqn:Hg.
    + simpl in *. split; [rewrite <- Hcat; reflexivity|].
      repeat constructor; [discriminate|]. exists z. split; [reflexivity|].
      constructor; [exact Hx | constructor].
    + apply Forall_cons in Hgroups as [(Hne & z' & Hk' & Hid) Hgs].
      simpl in Hk', Hid, Hne. subst k'. simpl.
      destruct (Z.eqb_spec z z') as [->|Hzz'].
      * simpl in *. split; [rewrite <- Hcat; reflexivity|].
        constructor; [|exact Hgs]. simpl. split; [discriminate|].
        exists z'. split; [reflexivity|]. constructor; assumption.
      * simpl in *. split; [rewrite <- Hcat; reflexivity|].
        constructor; [|constructor; [|exact Hgs]]; simpl.
        -- split; [discriminate|]. exists z. split; [reflexivity|].
           constructor; [exact Hx | constructor].
        -- split; [exact Hne|]. exists z'. split; [reflexivity | exact Hid].
Qed.

Section TitlesProperties.
Variables text_column id_column membership_column : string.
Variable shuffle : nat -> list (str * float) -> list (str * float).
Hypothesis shuffle_permutes : forall n l, shuffle n l ≡ₚ l.

Lemma keyed_typed (items : list Item) :
  forallb (typed_row text_column id_column membership_column) items = true ->
  exists keyed,
    mapM (fun value => key <- subscript value id_column ;; Ok (key, value))%result items
      = Ok keyed
    /\ map snd keyed = items
    /\ Forall (fun kx => exists z, fst kx = VInt z
                                   /\ subscript (snd kx) id_column = Ok (VInt z)) keyed.
Proof.
  induction items as [|item items IH]; simpl; intros Ht.
  - exists []. repeat split. constructor.
  - apply andb_true_iff in Ht as [Hitem Hitems].
    destruct (IH Hitems) as (keyed & Hm & Hsnd & Hall).
    destruct item as [d|]; [|discriminate]. simpl in Hitem.
    destruct (d !! id_column) as [[| z | |]|] eqn:Hid; try discriminate.
    simpl. rewrite Hid. simpl. rewrite Hm. simpl.
    exists ((VInt z, Some d) :: keyed). split; [reflexivity|].
    split; [simpl; congruence|].
    constructor; [|exact Hall]. exists z. simpl. rewrite Hid. split; reflexivity.
Qed.

Lemma groups_typed (items : list Item) :
  forallb (typed_row text_column id_column membership_column) items = true ->
  exists groups,
    group_by_sorted_key_iter items (fun x => subscript x id_column) = Ok groups
    /\ concat groups = items
    /\ Forall (fun g => g <> [] /\ exists z, group_has_id id_column g z) groups.
Proof.
  intros Ht. destruct (keyed_typed items Ht) as (keyed & Hm & Hsnd & Hall).
  unfold group_by_sorted_key_iter. rewrite Hm. simpl.
  destruct (group_keyed_spec id_column keyed Hall) as [Hcat Hgroups].
  eexists. split; [reflexivity|]. split; [congruence|].
  apply Forall_map. eapply Forall_impl; [exact Hgroups|].
  intros [k g] (Hne & z & _ & Hid). simpl in *. split; [exact Hne|]. exists z. exact Hid.
Qed.

Lemma ranked_doc_typed (item : Item) :
  typed_row text_column id_column membership_column item = true ->
  exists o,
    ranked_doc text_column id_column membership_column item = Ok o
    /\ (forall doc, o = Some doc ->
          row_qualifies text_column id_column membership_column item doc)
    /\ (forall k, subscript item id_column = Ok (VInt k) -> k < 0 -> o = None).
Proof.
  assert (Hskip : forall (item : Item) (P : (str * float) -> Prop) (Q : Z -> Prop),
             (forall doc, @None (str * float) = Some doc -> P doc)
             /\ (forall k, Q k -> k < 0 -> @None (str * float) = None)).
  { intros. split; [discriminate | reflexivity]. }
  destruct item as [d|]; [|discriminate].
  unfold typed_row, ranked_doc, row_qualifies, subscript.
  destruct (size d =? 0)%nat.
  { intros _. exists None. split; [reflexivity | apply (Hskip (Some d))]. }
  destruct (d !! id_column) as [[| k | |]|] eqn:Hid; try discriminate.
  simpl. destruct (Z.ltb_spec k 0) as [Hneg|Hpos].
  { intros _. exists None. split; [reflexivity | apply (Hskip (Some d))]. }
  destruct (d !! text_column) as [[| | |s]|] eqn:Htx; try discriminate; simpl;
    try (intros _; exists None; split; [reflexivity | apply (Hskip (Some d))]).
  destruct s as [|c s]; simpl;
    try (intros _; exists None; split; [reflexivity | apply (Hskip (Some d))]).
  destruct (d !! membership_column) as [[| | p |]|] eqn:Hm; try discriminate; simpl;
    try (intros _; exists None; split; [reflexivity | apply (Hskip (Some d))]).
  destruct (PrimFloat.eqb p 0) eqn:Hp;
    try (intros _; exists None; split; [reflexivity | apply (Hskip (Some d))]).
  intros _. exists (Some (c :: s, p)). split; [reflexivity|]. split.
  - intros doc [= <-]. exists d, k. simpl. repeat split; try assumption. discriminate.
  - intros ? [= <-]. lia.
Qed.

Lemma collect_sorted_docs_typed (group : list Item) :
  forallb (typed_row text_column id_column membership_column) group = true ->
  exists docs,
    collect_sorted_docs text_column id_column membership_column group = Ok docs
    /\ (forall doc, doc ∈ docs ->
          exists item, item ∈ group
            /\ row_qualifies text_column id_column membership_column item doc)
    /\ (forall k, group_has_id id_column group k -> k < 0 -> docs = []).
Proof.
  induction group as [|item group IH]; simpl; intros Ht.
  - exists []. split; [reflexivity|]. split; [|reflexivity].
    intros doc Hdoc. apply elem_of_nil in Hdoc. contradiction.
  - apply andb_true_iff in Ht as [Hitem Hgroup].
    destruct (IH Hgroup) as (docs & Hc & Hfrom & Hneg).
    destruct (ranked_doc_typed item Hitem) as (o & Hr & Hq & Hn).
    rewrite Hr, Hc. simpl.
    exists (match o with Some d => d :: docs | None => docs end).
    split; [reflexivity|]. split.
    + intros doc Hdoc. destruct o as [d|].
      * apply elem_of_cons in Hdoc as [-> | Hdoc].
        -- exists item. split; [left | apply Hq; reflexivity].
        -- destruct (Hfrom doc Hdoc) as (it & Hin & Hqual).
           exists it. split; [right; exact Hin | exact Hqual].
      * destruct (Hfrom doc Hdoc) as (it & Hin & Hqual).
        exists it. split; [right; exact Hin | exact Hqual].
    + intros k Hid Hk. apply Forall_cons in Hid as [Hitem_id Hrest].
      rewrite (Hn k Hitem_id Hk). apply (Hneg k Hrest Hk).
Qed.

Lemma ranked_elem (n : nat) (docs : list (str * float)) (doc : str * float) :
  doc ∈ sort_desc (shuffle n (dedup docs)) -> doc ∈ docs.
Proof.
  intros H. apply dedup_elem.
  rewrite sort_desc_perm, shuffle_permutes in H. exact H.
Qed.

Lemma ranked_nil (n : nat) : sort_desc (shuffle n (dedup [])) = [].
Proof.
  apply Permutation_nil_r. rewrite sort_desc_perm, shuffle_permutes. reflexivity.
Qed.


Lemma delayed_jobs_typed (n : nat) (groups : list (list Item)) :
  Forall (fun g => forallb (typed_row text_column id_column membership_column) g = true)
    groups ->
  exists jobs,
    delayed_jobs shuffle text_column id_column membership_column n groups = Ok jobs
    /\ map snd jobs = map length groups
    /\ Forall2 (ranked_from text_column id_column membership_column) groups (map fst jobs).
Proof.
  revert n. induction groups as [|g groups IH]; intros n Ht; simpl.
  - exists []. repeat split. constructor.
  - apply Forall_cons in Ht as [Hg Hgroups].
    destruct (IH (S n) Hgroups) as (jobs & Hj & Hlen & Hrel).
    destruct (collect_sorted_docs_typed g Hg) as (docs & Hc & Hfrom & Hneg).
    unfold delayed_job. rewrite Hc. simpl. rewrite Hj. simpl.
    eexists. split; [reflexivity|]. simpl. split; [congruence|].
    constructor; [|exact Hrel]. split.
    + intros doc Hdoc. apply Hfrom. eapply ranked_elem. exact Hdoc.
    + intros k Hid Hk. rewrite (Hneg k Hid Hk). apply ranked_nil.
Qed.

Lemma fold_titles (topic_fn : TopicFn) (jobs : list (list (str * float) * nat))
    (acc : list (option str)) (ti : option TaskInfo) :
  fst (fold_left
         (fun (acc : list (option str) * option TaskInfo) (job : list (str * float) * nat) =>
            let '(group_size, title) := _compute_title topic_fn (fst job) (snd job) in
            (fst acc ++ repeat title group_size, add_progress (snd acc) group_size))
         jobs (acc, ti))
  = acc ++ concat (map (fun job => repeat (title_of topic_fn (fst job)) (snd job)) jobs).
Proof.
  revert acc ti. induction jobs as [|[docs size] jobs IH]; intros acc ti; simpl.
  - rewrite app_nil_r. reflexivity.
  - replace (_compute_title topic_fn docs size) with (size, title_of topic_fn docs)
      by (destruct docs; reflexivity).
    simpl. rewrite IH, <- app_assoc. reflexivity.
Qed.

Lemma broadcast_of_jobs (topic_fn : TopicFn) (groups : list (list Item))
    (jobs : list (list (str * float) * nat)) :
  map snd jobs = map length groups ->
  concat (map (fun job => repeat (title_of topic_fn (fst job)) (snd job)) jobs)
  = broadcast_titles topic_fn groups (map fst jobs).
Proof.
  unfold broadcast_titles. revert groups.
  induction jobs as [|[docs size] jobs IH]; intros [|g groups]; simpl;
    try discriminate; [reflexivity|].
  intros [= -> Hrest]. rewrite (IH groups Hrest). reflexivity.
Qed.

Lemma broadcast_length (topic_fn : TopicFn) (groups : list (list Item))
    (ranked : list (list (str * float))) :
  length ranked = length groups ->
  length (broadcast_titles topic_fn groups ranked) = length (concat groups).
Proof.
  unfold broadcast_titles. revert ranked.
  induction groups as [|g groups IH]; intros [|r ranked]; simpl;
    try discriminate; [reflexivity|].
  intros [= Hlen]. rewrite !length_app, repeat_length, (IH ranked Hlen). reflexivity.
Qed.

Lemma forallb_concat {A : Type} (f : A -> bool) (ls : list (list A)) :
  forallb f (concat ls) = true -> Forall (fun l => forallb f l = true) ls.
Proof.
  induction ls as [|l ls IH]; simpl; intros H; [constructor|].
  rewrite forallb_app in H. apply andb_true_iff in H as [Hl Hls].
  constructor; [exact Hl | exact (IH Hls)].
Qed.

End TitlesProperties.

(* ===================================================================== *)
(** ** Traces *)
(* ===================================================================== *)

Lemma tbind_trace {E A B : Type} (m : Traced E A) (k : A -> Traced E B) :
  fst (tbind m k) = fst m ++ match snd m with Ok a => fst (k a) | Raise _ => [] end.
Proof.
  destruct m as [t [a|e]]; simpl.
  - destruct (k a). reflexivity.
  - rewrite app_nil_r. reflexivity.
Qed.

Lemma tbind_result {E A B : Type} (m : Traced E A) (k : A -> Traced E B) :
  snd (tbind m k) = match snd m with Ok a => snd (k a) | Raise e => Raise e end.
Proof.
  destruct m as [t [a|e]]; simpl; [|reflexivity]. destruct (k a). reflexivity.
Qed.

Lemma for_each_emit_trace {E A : Type} (l : list A) (f : A -> E) :
  for_each l (fun a => emit (f a)) = (map f l, Ok tt).
Proof.
  induction l as [|a l IH]; simpl; [reflexivity|].
  rewrite IH. reflexivity.
Qed.

Lemma compute_embeddings_trace (w : World) (docs : Docs) :
  fst (compute_embeddings w docs)
  = [JinaSetup; JinaCompute (fst (py_list docs)); JinaTeardown].
Proof.
  unfold compute_embeddings. destruct (py_list docs) as [doc_list docs'] eqn:Hl. simpl.
  destruct (mapM first_embedding (jina_compute w doc_list)) as [rows|e]; simpl; [|reflexivity].
  destruct (np_array_float32 rows); reflexivity.
Qed.

Lemma fit_clusterer_run (w : World) (all_vectors : list Vector) (m : Z) :
  fit_clusterer w all_vectors m
  = ([HDBSCANFit (hdbscan_args (Z.min m (Z.of_nat (length all_vectors)))) all_vectors],
     Ok (fitted w all_vectors m)).
Proof.
  unfold fit_clusterer, fitted.
  destruct (hdbscan_fit w _ all_vectors) as [labels probabilities]. reflexivity.
Qed.

Lemma local_steps_trace (w : World) (docs : Docs) (m : Z) :
  fst (local_steps w docs m)
  = [JinaSetup; JinaCompute (fst (py_list docs)); JinaTeardown]
    ++ match snd (compute_embeddings w docs) with
       | Ok all_vectors =>
           fst (reduce_dimensions w all_vectors)
           ++ match snd (reduce_dimensions w all_vectors) with
              | Ok reduced =>
                  HDBSCANFit (hdbscan_args (Z.min m (Z.of_nat (length reduced)))) reduced
                  :: fst (reassign_and_yield w (fitted w reduced m) reduced)
              | Raise _ => []
              end
       | Raise _ => []
       end.
Proof.
  unfold local_steps. rewrite tbind_trace, compute_embeddings_trace. f_equal.
  destruct (snd (compute_embeddings w docs)) as [all_vectors|e]; [|reflexivity].
  rewrite tbind_trace. f_equal.
  destruct (snd (reduce_dimensions w all_vectors)) as [reduced|e]; [|reflexivity].
  rewrite tbind_trace, fit_clusterer_run. reflexivity.
Qed.

Lemma soft_cluster_batch_trace (w : World) (c : Clusterer) (batch : list Vector) :
  fst (soft_cluster_batch w c batch) = [MembershipVector (map (map to_float32) batch)].
Proof.
  unfold soft_cluster_batch. rewrite tbind_trace. simpl.
  destruct (mapM np_argmax _); simpl; [|reflexivity].
  destruct (mapM np_max _); reflexivity.
Qed.

Lemma soft_cluster_batches_events (w : World) (c : Clusterer) (batches : list (list Vector)) :
  Forall (fun e => after_fit_event e = true) (fst (soft_cluster_batches w c batches)).
Proof.
  induction batches as [|b batches IH]; simpl; [constructor|].
  rewrite tbind_trace, soft_cluster_batch_trace. simpl.
  constructor; [reflexivity|].
  destruct (snd (soft_cluster_batch w c b)); [|constructor].
  rewrite tbind_trace. apply Forall_app. split; [exact IH|].
  destruct (snd (soft_cluster_batches w c batches)); constructor.
Qed.

Lemma reassign_noise_events (w : World) (c : Clusterer) (noisy : list Vector) :
  Forall (fun e => after_fit_event e = true) (fst (reassign_noise w c noisy)).
Proof.
  unfold reassign_noise.
  destruct ((0 <? length noisy)%nat && (length noisy <? length (labels_ c))%nat);
    [|constructor].
  rewrite tbind_trace. apply Forall_app. split; [apply soft_cluster_batches_events|].
  destruct (snd (soft_cluster_batches w c _)); constructor.
Qed.

Lemma count_noise_events (c : Clusterer) (vs : list Vector) :
  Forall (fun e => after_fit_event e = true) (fst (count_noise c vs)).
Proof.
  unfold count_noise. rewrite tbind_trace. simpl.
  destruct (gather_noisy_vectors (labels_ c) 0 vs) as [noisy|e]; simpl; [|constructor].
  destruct (length (labels_ c) =? 0)%nat; simpl; repeat constructor.
Qed.

Lemma reassign_and_yield_events (w : World) (c : Clusterer) (vs : list Vector) :
  Forall (fun e => after_fit_event e = true) (fst (reassign_and_yield w c vs)).
Proof.
  unfold reassign_and_yield. rewrite tbind_trace.
  apply Forall_app. split; [apply count_noise_events|].
  destruct (snd (count_noise c vs)) as [noisy|e]; [|constructor].
  rewrite tbind_trace. apply Forall_app. split; [apply reassign_noise_events|].
  destruct (snd (reassign_noise w c noisy)) as [lm|e]; [|constructor].
  rewrite for_each_emit_trace. simpl. apply Forall_map. apply Forall_true. reflexivity.
Qed.

Lemma omap_none {A B : Type} (f : A -> option B) (l : list A) :
  Forall (fun a => f a = None) l -> omap f l = [].
Proof.
  induction 1 as [|a l Ha _ IH]; simpl; [reflexivity|]. rewrite Ha. exact IH.
Qed.

Lemma after_fit_no_umap (trace : list Event) :
  Forall (fun e => after_fit_event e = true) trace -> omap umap_call trace = [].
Proof.
  intros H. apply omap_none. eapply Forall_impl; [exact H|].
  intros [] He; simpl in *; try reflexivity; discriminate.
Qed.

Lemma after_fit_no_hdbscan (trace : list Event) :
  Forall (fun e => after_fit_event e = true) trace -> omap hdbscan_call trace = [].
Proof.
  intros H. apply omap_none. eapply Forall_impl; [exact H|].
  intros [] He; simpl in *; try reflexivity; discriminate.
Qed.

Lemma reduce_dimensions_run (w : World) (first : Vector) (rest : list Vector) :
  let all_vectors := first :: rest in
  let N := Z.of_nat (length all_vectors) in
  reduce_dimensions w all_vectors
  = if (5 <? Z.of_nat (length first)) && (5 <? N)
    then ([UMAPFit (umap_args (Z.min 30 (N - 1))) all_vectors],
          Ok (umap_fit_transform w (umap_args (Z.min 30 (N - 1))) all_vectors))
    else ([], Ok all_vectors).
Proof.
  intros all_vectors N. unfold reduce_dimensions, all_vectors.
  change UMAP_DIM with 5. fold all_vectors. fold N.
  destruct ((5 <? Z.of_nat (length first)) && (5 <? N)); reflexivity.
Qed.

Lemma mapM_length {A B : Type} (f : A -> Result B) (l : list A) (bs : list B) :
  mapM f l = Ok bs -> length bs = length l.
Proof.
  revert bs. induction l as [|a l IH]; simpl; intros bs.
  - intros [= <-]. reflexivity.
  - destruct (f a) as [b|e]; simpl; [|discriminate].
    destruct (mapM f l) as [bs'|e]; simpl; [|discriminate].
    intros [= <-]. simpl. rewrite (IH bs' eq_refl). reflexivity.
Qed.

Lemma np_array_float32_length (rows vs : list Vector) :
  np_array_float32 rows = Ok vs -> length vs = length rows.
Proof.
  unfold np_array_float32. destruct rows as [|v rows]; [intros [= <-]; reflexivity|].
  destruct (forallb _ _); [|discriminate].
  intros [= <-]. simpl. f_equal. apply length_map.
Qed.

(** The array of embeddings has one row for each response of the embedding
    provider. *)
Lemma compute_embeddings_length (w : World) (docs : Docs) (all_vectors : list Vector) :
  snd (compute_embeddings w docs) = Ok all_vectors ->
  length all_vectors = length (jina_compute w (fst (py_list docs))).
Proof.
  unfold compute_embeddings. destruct (py_list docs) as [doc_list docs'] eqn:Hl. simpl.
  destruct (mapM first_embedding (jina_compute w doc_list)) as [rows|e] eqn:Hrows; simpl;
    [|discriminate].
  destruct (np_array_float32 rows) as [vs|e] eqn:Hvs; simpl; [|discriminate].
  intros [= <-]. rewrite (np_array_float32_length _ _ Hvs).
  apply (mapM_length _ _ _ Hrows).
Qed.

(* ===================================================================== *)
(** ** The clustering core: what is called, and with which arguments *)
(* ===================================================================== *)

Lemma tbind_ret {E A B : Type} (a : A) (k : A -> Traced E B) :
  tbind (ret a) k = k a.
Proof. unfold tbind, ret. destruct (k a). reflexivity. Qed.

Lemma local_run (w : World) (docs : Docs) (m : Z) :
  _hdbscan_cluster w docs m false = local_steps w docs m.
Proof.
  unfold _hdbscan_cluster. exact (tbind_ret docs (fun d => local_steps w d m)).
Qed.

(** C7: the reduction is called exactly when 5 is smaller than both the
    dimension of the embeddings and the number N of documents, and then once,
    on all the embeddings, with 5 components, [min(30, N-1)] neighbours and
    the seed 42 (the embedding provider answering once per document). *)
Theorem umap_reduction_gate (w : World) (docs : Docs) (m : Z) :
  length (jina_compute w (fst (py_list docs))) = length (fst (py_list docs)) ->
  let N := Z.of_nat (length (fst (py_list docs))) in
  omap umap_call (fst (_hdbscan_cluster w docs m false))
  = match snd (compute_embeddings w docs) with
    | Ok (first :: rest) =>
        if (5 <? Z.of_nat (length first)) && (5 <? N)
        then [({| n_components := 5;
                  n_neighbors := Z.min 30 (N - 1);
                  min_dist := 0%float;
                  n_jobs := -1;
                  random_state := 42 |}, first :: rest)]
        else []
    | _ => []
    end.
Proof.
  intros Hone N. rewrite local_run, local_steps_trace, omap_app. simpl.
  destruct (snd (compute_embeddings w docs)) as [[|first rest]|e] eqn:He; try reflexivity.
  apply compute_embeddings_length in He. rewrite Hone in He.
  rewrite reduce_dimensions_run. rewrite He. fold N.
  destruct ((5 <? Z.of_nat (length first)) && (5 <? N)); simpl;
    rewrite after_fit_no_umap by apply reassign_and_yield_events; reflexivity.
Qed.

(** C8: the density clustering is run once, with the minimum cluster size
    [min(m, N)], that number minus one as minimum samples, the selection
    epsilon 0.05, the leaf selection method and the prediction data enabled
    (the embedding provider answering once per document and the reduction
    keeping one row per vector). *)
Theorem hdbscan_parameters (w : World) (docs : Docs) (m : Z) :
  length (jina_compute w (fst (py_list docs))) = length (fst (py_list docs)) ->
  (forall args vectors, length (umap_fit_transform w args vectors) = length vectors) ->
  let N := Z.of_nat (length (fst (py_list docs))) in
  map fst (omap hdbscan_call (fst (_hdbscan_cluster w docs m false)))
  = match snd (compute_embeddings w docs) with
    | Ok (_ :: _) =>
        [{| min_cluster_size := Z.min m N;
            min_samples := Z.min m N - 1;
            cluster_selection_epsilon := 0x1.999999999999ap-5%float;
            cluster_selection_method := "leaf";
            prediction_data := true |}]
    | _ => []
    end.
Proof.
  intros Hone Hrows N. rewrite local_run, local_steps_trace, omap_app. simpl.
  destruct (snd (compute_embeddings w docs)) as [[|first rest]|e] eqn:He; try reflexivity.
  apply compute_embeddings_length in He. rewrite Hone in He.
  rewrite reduce_dimensions_run.
  destruct ((5 <? Z.of_nat (length first)) && (5 <? Z.of_nat (length (first :: rest))));
    simpl; rewrite after_fit_no_hdbscan by apply reassign_and_yield_events; simpl;
    rewrite ?Hrows; simpl length; simpl in He; rewrite He; reflexivity.
Qed.

Lemma umap_reduction_gate_witness :
  length (jina_compute (example_world true) (fst (py_list (DocsList (repeat doc_a 7)))))
  = length (fst (py_list (DocsList (repeat doc_a 7))))
  /\ exists vectors,
       length vectors = 7%nat
       /\ omap umap_call (fst (_hdbscan_cluster (example_world true)
                                 (DocsList (repeat doc_a 7)) 5 false))
          = [({| n_components := 5; n_neighbors := 6; min_dist := 0%float;
                 n_jobs := -1; random_state := 42 |}, vectors)].
Proof.
  split; [reflexivity|]. eexists. split.
  2: { rewrite (umap_reduction_gate (example_world true) (DocsList (repeat doc_a 7)) 5
                  eq_refl).
       vm_compute. reflexivity. }
  reflexivity.
Defined.

Lemma hdbscan_parameters_witness :
  length (jina_compute (example_world true) (fst (py_list (DocsList [doc_a; doc_b]))))
  = length (fst (py_list (DocsList [doc_a; doc_b])))
  /\ map fst (omap hdbscan_call (fst (_hdbscan_cluster (example_world true)
                                        (DocsList [doc_a; doc_b]) 5 false)))
     = [{| min_cluster_size := 2; min_samples := 1;
           cluster_selection_epsilon := 0x1.999999999999ap-5%float;
           cluster_selection_method := "leaf"; prediction_data := true |}].
Proof.
  split; [reflexivity|].
  rewrite (hdbscan_parameters (example_world true) (DocsList [doc_a; doc_b]) 5 eq_refl
             (fun args vectors => length_map _ vectors)).
  vm_compute. reflexivity.
Defined.

(** The remote branch is followed by the local steps: after the entries of
    the response have been yielded, the embedding provider is set up and
    called on what [list(docs)] still gives. *)
Lemma remote_run_trace (w : World) (docs : Docs) (m : Z) (clusters : list Dict) :
  remote_fn w (compress_docs w (fst (py_list docs))) !! "clusters"%string = Some clusters ->
  exists rest,
    fst (_hdbscan_cluster w docs m true)
    = [ModalLookup; CompressDocs (fst (py_list docs));
       RemoteCall (compress_docs w (fst (py_list docs)))]
      ++ map Yield clusters
      ++ [JinaSetup; JinaCompute (fst (py_list (snd (py_list docs)))); JinaTeardown]
      ++ rest.
Proof.
  intros Hc. unfold _hdbscan_cluster. rewrite tbind_trace.
  unfold remote_branch. destruct (py_list docs) as [doc_list docs'] eqn:Hl.
  simpl in Hc. simpl. rewrite Hc. simpl. rewrite for_each_emit_trace. simpl.
  rewrite app_nil_r, local_steps_trace. eexists. simpl. reflexivity.
Qed.

(** C1: with [remote] set, on an iterator over two documents, the run
    yields the two entries of the response and then goes on with the local
    steps: it sets the embedding provider up, calls it on the exhausted
    iterator and ends with an [IndexError] on the empty array. *)
Theorem remote_run_falls_through :
  _hdbscan_cluster (example_world false) (DocsIterator [doc_a; doc_b]) 5 true
  = ([ModalLookup; CompressDocs [doc_a; doc_b]; RemoteCall (doc_a ++ doc_b);
      Yield (cluster_item 0 1%float); Yield (cluster_item 0 1%float);
      JinaSetup; JinaCompute []; JinaTeardown],
     Raise IndexError).
Proof. vm_compute. reflexivity. Qed.

(** With a list in place of the iterator, the local steps run to their end
    after the remote branch: the two entries of the response are followed by
    two items of the local clustering. *)
Lemma remote_run_on_list_yields_twice :
  let run := _hdbscan_cluster (example_world false) (DocsList [doc_a; doc_b]) 5 true in
  snd run = Ok tt
  /\ omap yielded (fst run) = repeat (cluster_item 0 1%float) 4
  /\ length (omap hdbscan_call (fst run)) = 1%nat.
Proof. vm_compute. repeat split; reflexivity. Qed.

(* ===================================================================== *)
(** ** Properties of [cluster_impl] *)
(* ===================================================================== *)

Lemma not_string_field_spec (f : Field) :
  not_string_field f = true <-> dtype f <> Some {| type := "string" |}.
Proof.
  unfold not_string_field. destruct (dtype f) as [[t]|]; simpl.
  - destruct (String.eqb_spec t "string") as [->|Hne]; simpl.
    + split; [discriminate | intros H; contradiction H; reflexivity].
    + split; [|reflexivity]. intros _ [= Ht]. contradiction.
  - split; [discriminate | reflexivity].
Qed.

Lemma preamble_no_dataset_access (task_id : option string) :
  forallb (fun e => negb (touches_dataset e)) (preamble task_id) = true.
Proof. unfold preamble. destruct (string_truthy task_id); reflexivity. Qed.

(** C9: when the input is a path (given as it is or through a format
    selector) that the schema does not have, or whose field is not of string
    type, [cluster_impl] raises a [ValueError] right after fetching the task
    handle and the schema: no row of the dataset has been read or written. *)
Theorem cluster_impl_rejects_bad_path (env : Env) (p : Path) (output_path : option Path)
    (m : Z) (overwrite remote : bool) (task_id : option string) (recompute_titles : bool) :
  has_field env (normalize_path env p) = false
  \/ dtype (get_field env (normalize_path env p)) <> Some {| type := "string" |} ->
  forall input,
    input = Plain (IsPath p) \/ (exists name, input = DatasetFormatInputSelector name (IsPath p)) ->
    (exists msg,
        cluster_impl env input output_path m overwrite remote task_id recompute_titles
        = (preamble task_id, Raise (ValueError msg)))
    /\ forallb (fun e => negb (touches_dataset e)) (preamble task_id) = true.
Proof.
  intros Hbad input Hinput. split; [|apply preamble_no_dataset_access].
  assert (Hcheck : negb (has_field env (normalize_path env p)) = true
                   \/ (negb (has_field env (normalize_path env p)) = false
                       /\ not_string_field (get_field env (normalize_path env p)) = true)).
  { destruct (has_field env (normalize_path env p)) eqn:Hf; simpl.
    - right. split; [reflexivity|]. apply not_string_field_spec.
      destruct Hbad as [Hbad|Hbad]; [discriminate | exact Hbad].
    - left. reflexivity. }
  unfold cluster_impl, preamble.
  destruct Hinput as [-> | [name ->]];
    destruct (string_truthy task_id); simpl;
    destruct Hcheck as [-> | [-> ->]]; simpl; eexists; reflexivity.
Qed.

(** C10: when the input is a function (given as it is or through a format
    selector) and no output path is given, [cluster_impl] raises the
    [ValueError] asking for an output path right after fetching the task
    handle and the schema: no row of the dataset has been read or written. *)
Theorem cluster_impl_requires_output_path (env : Env) (f : Callable) (name : string)
    (m : Z) (overwrite remote : bool) (task_id : option string) (recompute_titles : bool) :
  cluster_impl env (Plain (IsFn f)) None m overwrite remote task_id recompute_titles
  = (preamble task_id,
     Raise (ValueError "output_path must be provided if input is a function."))
  /\ cluster_impl env (DatasetFormatInputSelector name (IsFn f)) None m overwrite remote
       task_id recompute_titles
     = (preamble task_id,
        Raise (ValueError "output_path must be provided if input is a function."))
  /\ forallb (fun e => negb (touches_dataset e)) (preamble task_id) = true.
Proof.
  split; [|split; [|apply preamble_no_dataset_access]];
    unfold cluster_impl, preamble; destruct (string_truthy task_id); reflexivity.
Qed.

(* ===================================================================== *)
(** ** The noise reassignment *)
(* ===================================================================== *)

Lemma num_noise_cons (label : Z) (labels : list Z) :
  num_noise (label :: labels)
  = ((if is_noise label then 1 else 0) + num_noise labels)%nat.
Proof. unfold num_noise. simpl. destruct (is_noise label); reflexivity. Qed.

Lemma num_noise_le (labels : list Z) : (num_noise labels <= length labels)%nat.
Proof.
  induction labels as [|l labels IH]; [reflexivity|].
  rewrite num_noise_cons. simpl. destruct (is_noise l); lia.
Qed.

Lemma gather_noisy_vectors_run (labels : list Z) (i : nat) (vectors : list Vector) :
  (i + length labels <= length vectors)%nat ->
  gather_noisy_vectors labels i vectors = Ok (noise_vectors labels (drop i vectors)).
Proof.
  revert i. induction labels as [|l labels IH]; intros i Hlen; simpl.
  - destruct (drop i vectors); reflexivity.
  - simpl in Hlen.
    destruct (lookup_lt_is_Some_2 vectors i) as [v Hv]; [lia|].
    rewrite (drop_S _ _ _ Hv), Hv. fold (is_noise l).
    rewrite (IH (S i)) by lia. destruct (is_noise l); reflexivity.
Qed.

Lemma noise_vectors_length (labels : list Z) (vectors : list Vector) :
  (length labels <= length vectors)%nat ->
  length (noise_vectors labels vectors) = num_noise labels.
Proof.
  revert vectors. induction labels as [|l labels IH]; intros [|v vectors] Hlen;
    simpl in *; try reflexivity; try lia.
  rewrite num_noise_cons. destruct (is_noise l); simpl; rewrite IH by lia; reflexivity.
Qed.

Lemma count_noise_run (c : Clusterer) (vectors : list Vector) :
  (length (labels_ c) <= length vectors)%nat ->
  labels_ c <> [] ->
  count_noise c vectors
  = ([PrintNoise (num_noise (labels_ c))], Ok (noise_vectors (labels_ c) vectors)).
Proof.
  intros Hlen Hne. unfold count_noise.
  rewrite (gather_noisy_vectors_run (labels_ c) 0 vectors) by lia. simpl.
  rewrite noise_vectors_length by exact Hlen.
  destruct (labels_ c) as [|l labels]; [contradiction|]. reflexivity.
Qed.

Lemma chunks_upto_concat {A : Type} (fuel : nat) (l : list A) (size : nat) :
  (0 < size)%nat -> (length l <= fuel)%nat -> concat (chunks_upto fuel l size) = l.
Proof.
  intros Hsize. revert l. induction fuel as [|fuel IH]; intros l Hlen; simpl.
  - destruct l; [reflexivity | simpl in Hlen; lia].
  - destruct l as [|a l]; [reflexivity|].
    change (concat (take size (a :: l) :: chunks_upto fuel (drop size (a :: l)) size))
      with (take size (a :: l) ++ concat (chunks_upto fuel (drop size (a :: l)) size)).
    rewrite IH; [apply take_drop|].
    rewrite length_drop. simpl in *. lia.
Qed.

Lemma chunks_concat {A : Type} (l : list A) (size : nat) :
  (0 < size)%nat -> concat (chunks l size) = l.
Proof. intros H. apply chunks_upto_concat; [exact H | reflexivity]. Qed.

Lemma mapM_app {A B : Type} (f : A -> Result B) (l1 l2 : list A) (b1 b2 : list B) :
  mapM f l1 = Ok b1 -> mapM f l2 = Ok b2 -> mapM f (l1 ++ l2) = Ok (b1 ++ b2).
Proof.
  revert b1. induction l1 as [|a l1 IH]; simpl; intros b1 H1 H2.
  - injection H1 as <-. exact H2.
  - destruct (f a) as [b|e]; simpl in *; [|discriminate].
    destruct (mapM f l1) as [bs|e]; simpl in *; [|discriminate].
    injection H1 as <-. rewrite (IH bs eq_refl H2). reflexivity.
Qed.

Lemma mapM_total {A B : Type} (f : A -> Result B) (l : list A) :
  Forall (fun a => exists b, f a = Ok b) l -> exists bs, mapM f l = Ok bs.
Proof.
  induction 1 as [|a l [b Hb] _ [bs IH]]; simpl.
  - exists []. reflexivity.
  - rewrite Hb, IH. simpl. eexists. reflexivity.
Qed.

Lemma mapM_lookup {A B : Type} (f : A -> Result B) (l : list A) (bs : list B)
    (i : nat) (b : B) :
  mapM f l = Ok bs -> bs !! i = Some b -> exists a, l !! i = Some a /\ f a = Ok b.
Proof.
  revert bs i. induction l as [|a l IH]; simpl; intros bs i.
  - intros [= <-]. rewrite lookup_nil. discriminate.
  - destruct (f a) as [b'|e] eqn:Hfa; simpl; [|discriminate].
    destruct (mapM f l) as [bs'|e]; simpl; [|discriminate].
    intros [= <-]. destruct i as [|i]; simpl.
    + intros [= <-]. exists a. split; [reflexivity | exact Hfa].
    + intros Hb. exact (IH bs' i eq_refl Hb).
Qed.

Lemma np_argmax_total (row : list float) : row <> [] -> exists a, np_argmax row = Ok a.
Proof. destruct row; [contradiction|]. intros _. eexists. reflexivity. Qed.

Lemma np_max_total (row : list float) : row <> [] -> exists p, np_max row = Ok p.
Proof. destruct row; [contradiction|]. intros _. eexists. reflexivity. Qed.

Lemma soft_cluster_batches_run (w : World) (c : Clusterer) (batches : list (list Vector)) :
  Forall (fun row => row <> []) (concat (map (rows_of w c) batches)) ->
  exists ls ps,
    soft_cluster_batches w c batches
    = (map (fun b => MembershipVector (map (map to_float32) b)) batches, Ok (ls, ps))
    /\ mapM np_argmax (concat (map (rows_of w c) batches)) = Ok (concat ls)
    /\ mapM np_max (concat (map (rows_of w c) batches)) = Ok (concat ps).
Proof.
  induction batches as [|b batches IH]; simpl; intros Hrows.
  - exists [], []. repeat split.
  - apply Forall_app in Hrows as [Hb Hrest].
    destruct (IH Hrest) as (ls & ps & Hrun & Hls & Hps).
    destruct (mapM_total np_argmax (rows_of w c b)) as [la Hla].
    { eapply Forall_impl; [exact Hb|]. intros row. apply np_argmax_total. }
    destruct (mapM_total np_max (rows_of w c b)) as [pa Hpa].
    { eapply Forall_impl; [exact Hb|]. intros row. apply np_max_total. }
    exists (la :: ls), (pa :: ps).
    unfold soft_cluster_batch. fold (rows_of w c b). rewrite Hla, Hpa, Hrun. simpl.
    rewrite app_nil_r.
    split; [reflexivity|]. split; apply mapM_app; assumption.
Qed.

Lemma insert_middle {A : Type} (l1 l2 : list A) (x y : A) :
  <[length l1 := y]> (l1 ++ x :: l2) = l1 ++ y :: l2.
Proof.
  rewrite insert_app_r_alt by lia. rewrite Nat.sub_diag. reflexivity.
Qed.

(** The loop over the positions, started after [done_l] with the new
    entries [used_l] already handed out. *)
Lemma assign_noise_steps (todo_l : list Z) :
  forall (todo_p : list float) (done_l : list Z) (done_p : list float)
         (used_l new_l : list Z) (used_p new_p : list float),
    length done_l = length done_p ->
    length todo_l = length todo_p ->
    length used_l = length used_p ->
    (num_noise todo_l <= length new_l)%nat ->
    (num_noise todo_l <= length new_p)%nat ->
    assign_noise (length todo_l) (length done_l) (done_l ++ todo_l) (done_p ++ todo_p)
      (used_l ++ new_l) (used_p ++ new_p) (length used_l)
    = Ok (done_l ++ reassigned todo_l todo_l new_l,
          done_p ++ reassigned todo_l todo_p new_p).
Proof.
  induction todo_l as [|l todo_l IH];
    intros todo_p done_l done_p used_l new_l used_p new_p Hdone Htodo Hused Hnl Hnp.
  - destruct todo_p; [|discriminate]. reflexivity.
  - destruct todo_p as [|p todo_p]; [discriminate|].
    simpl in Htodo. injection Htodo as Htodo.
    rewrite num_noise_cons in Hnl, Hnp.
    simpl assign_noise. rewrite list_lookup_middle by reflexivity.
    fold (is_noise l). simpl reassigned.
    destruct (is_noise l) eqn:Hl.
    + destruct new_l as [|n new_l]; [simpl in Hnl; lia|].
      destruct new_p as [|q new_p]; [simpl in Hnp; lia|].
      simpl in Hnl, Hnp.
      rewrite list_lookup_middle by reflexivity.
      rewrite (list_lookup_middle used_p new_p q (length used_l)) by exact Hused.
      replace (length done_l <? length (done_p ++ p :: todo_p))%nat with true
        by (symmetry; apply Nat.ltb_lt; rewrite length_app; simpl; lia).
      rewrite insert_middle. rewrite Hdone at 2. rewrite insert_middle.
      replace (S (length done_l)) with (length (done_l ++ [n]))
        by (rewrite length_app; simpl; lia).
      replace (S (length used_l)) with (length (used_l ++ [n]))
        by (rewrite length_app; simpl; lia).
      rewrite (cons_middle n done_l todo_l), (cons_middle q done_p todo_p).
      rewrite (cons_middle n used_l new_l), (cons_middle q used_p new_p).
      rewrite !app_assoc.
      rewrite (IH todo_p (done_l ++ [n]) (done_p ++ [q]) (used_l ++ [n]) new_l
                 (used_p ++ [q]) new_p);
        rewrite ?length_app; simpl; try lia.
      rewrite <- !app_assoc. reflexivity.
    + replace (S (length done_l)) with (length (done_l ++ [l]))
        by (rewrite length_app; simpl; lia).
      rewrite (cons_middle l done_l todo_l), (cons_middle p done_p todo_p).
      rewrite !app_assoc.
      rewrite (IH todo_p (done_l ++ [l]) (done_p ++ [p]) used_l new_l used_p new_p);
        rewrite ?length_app; simpl; try lia.
      rewrite <- !app_assoc. reflexivity.
Qed.

Lemma assign_noise_run (labels : list Z) (probs : list float)
    (new_l : list Z) (new_p : list float) :
  length labels = length probs ->
  (num_noise labels <= length new_l)%nat ->
  (num_noise labels <= length new_p)%nat ->
  assign_noise (length labels) 0 labels probs new_l new_p 0
  = Ok (reassigned labels labels new_l, reassigned labels probs new_p).
Proof.
  intros Hlen Hnl Hnp.
  exact (assign_noise_steps labels probs [] [] [] new_l [] new_p
           eq_refl Hlen eq_refl Hnl Hnp).
Qed.

Lemma noise_rank_cons (label : Z) (labels : list Z) (i : nat) :
  noise_rank (label :: labels) (S i)
  = ((if is_noise label then 1 else 0) + noise_rank labels i)%nat.
Proof. unfold noise_rank. simpl. apply num_noise_cons. Qed.

Lemma reassigned_lookup_noise {A : Type} (labels : list Z) :
  forall (old new : list A) (i : nat) (label : Z),
    length labels = length old ->
    (num_noise labels <= length new)%nat ->
    labels !! i = Some label -> is_noise label = true ->
    reassigned labels old new !! i = new !! noise_rank labels i
    /\ (noise_rank labels i < num_noise labels)%nat.
Proof.
  induction labels as [|l labels IH]; intros old new i label Hlen Hnew Hi Hnoise.
  - rewrite lookup_nil in Hi. discriminate.
  - destruct old as [|o old]; [discriminate|]. simpl in Hlen. injection Hlen as Hlen.
    rewrite num_noise_cons in *. destruct i as [|i].
    + simpl in Hi. injection Hi as ->. simpl. rewrite Hnoise in *.
      destruct new as [|n new]; [simpl in Hnew; lia|].
      split; [reflexivity | unfold noise_rank, num_noise; simpl; lia].
    + simpl in Hi. rewrite noise_rank_cons. simpl reassigned.
      destruct (is_noise l).
      * destruct new as [|n new]; [simpl in Hnew; lia|]. simpl in Hnew.
        destruct (IH old new i label Hlen ltac:(lia) Hi Hnoise) as [Heq Hlt].
        simpl. split; [exact Heq | lia].
      * destruct (IH old new i label Hlen ltac:(lia) Hi Hnoise) as [Heq Hlt].
        simpl. split; [exact Heq | lia].
Qed.

Lemma reassigned_lookup_other {A : Type} (labels : list Z) :
  forall (old new : list A) (i : nat) (label : Z),
    length labels = length old ->
    (num_noise labels <= length new)%nat ->
    labels !! i = Some label -> is_noise label = false ->
    reassigned labels old new !! i = old !! i.
Proof.
  induction labels as [|l labels IH]; intros old new i label Hlen Hnew Hi Hnoise.
  - rewrite lookup_nil in Hi. discriminate.
  - destruct old as [|o old]; [discriminate|]. simpl in Hlen. injection Hlen as Hlen.
    rewrite num_noise_cons in *. destruct i as [|i].
    + simpl in Hi. injection Hi as ->. simpl. rewrite Hnoise. reflexivity.
    + simpl in Hi. simpl reassigned. destruct (is_noise l).
      * destruct new as [|n new]; [simpl in Hnew; lia|]. simpl in Hnew.
        simpl. apply (IH old new i label Hlen ltac:(lia) Hi Hnoise).
      * simpl. apply (IH old new i label Hlen ltac:(lia) Hi Hnoise).
Qed.

Lemma reassigned_length {A : Type} (labels : list Z) :
  forall (old new : list A), length (reassigned labels old new) = length old.
Proof.
  induction labels as [|l labels IH]; intros [|o old] new; simpl; try reflexivity.
  destruct (is_noise l).
  - destruct new as [|n new]; simpl; [reflexivity|]. rewrite IH. reflexivity.
  - simpl. rewrite IH. reflexivity.
Qed.

Lemma np_maximum_nan (a : float) (l : list float) :
  is_nan a = true -> fold_left np_maximum l a = a.
Proof.
  intros Ha. induction l as [|b l IH]; simpl; [reflexivity|].
  unfold np_maximum at 2. rewrite Ha, orb_true_r. exact IH.
Qed.

(** The scan keeps, in [max_ind], the position of the running maximum
    [mp]. *)
Lemma argmax_scan_spec (rest : list float) :
  forall (pre : list float) (i : Z) (mp : float) (max_ind : Z),
    i = Z.of_nat (length pre) ->
    0 <= max_ind < i ->
    pre !! Z.to_nat max_ind = Some mp ->
    is_nan mp = false ->
    0 <= argmax_scan rest i mp max_ind < Z.of_nat (length (pre ++ rest))
    /\ (pre ++ rest) !! Z.to_nat (argmax_scan rest i mp max_ind)
       = Some (fold_left np_maximum rest mp).
Proof.
  induction rest as [|x rest IH]; intros pre i mp max_ind Hi Hidx Hmp Hnan.
  - simpl. rewrite app_nil_r. split; [lia | exact Hmp].
  - simpl. unfold np_maximum at 2. rewrite Hnan, orb_false_r.
    assert (Hx : (pre ++ x :: rest) !! Z.to_nat i = Some x).
    { apply list_lookup_middle. rewrite Hi, Nat2Z.id. reflexivity. }
    assert (Hlen : Z.of_nat (length (pre ++ x :: rest)) = i + 1 + Z.of_nat (length rest)).
    { rewrite length_app. simpl. lia. }
    destruct (PrimFloat.leb x mp) eqn:Hle; simpl.
    + destruct (IH (pre ++ [x]) (i + 1) mp max_ind) as [Hr Hl].
      * rewrite length_app. simpl. lia.
      * lia.
      * rewrite lookup_app_l; [exact Hmp|]. apply Nat2Z.inj_lt. rewrite Z2Nat.id; lia.
      * exact Hnan.
      * rewrite <- app_assoc in Hr, Hl. simpl in Hr, Hl. split; assumption.
    + destruct (is_nan x) eqn:Hxnan.
      * rewrite np_maximum_nan by exact Hxnan. split; [lia | exact Hx].
      * destruct (IH (pre ++ [x]) (i + 1) x i) as [Hr Hl].
        -- rewrite length_app. simpl. lia.
        -- lia.
        -- rewrite (cons_middle x pre rest), app_assoc in Hx.
           rewrite lookup_app_l in Hx; [exact Hx|].
           rewrite length_app. simpl. apply Nat2Z.inj_lt. rewrite Z2Nat.id; lia.
        -- exact Hxnan.
        -- rewrite <- app_assoc in Hr, Hl. simpl in Hr, Hl. split; assumption.
Qed.

(** The index [np.argmax] gives is a position of the row, and the entry
    there is the value [np.max] gives. *)
Lemma np_argmax_max_consistent (row : list float) (a : Z) (p : float) :
  np_argmax row = Ok a -> np_max row = Ok p ->
  0 <= a < Z.of_nat (length row) /\ row !! Z.to_nat a = Some p.
Proof.
  destruct row as [|x rest]; [discriminate|]. simpl.
  intros [= <-] [= <-]. destruct (is_nan x) eqn:Hx.
  - rewrite np_maximum_nan by exact Hx. split; [lia | reflexivity].
  - exact (argmax_scan_spec rest [x] 1 x 0 eq_refl ltac:(lia) eq_refl Hx).
Qed.

Lemma to_int32_small (z : Z) : - 2 ^ 31 <= z < 2 ^ 31 -> to_int32 z = z.
Proof. intros H. unfold to_int32. rewrite Z.mod_small; lia. Qed.

Lemma combine_lookup {A B : Type} (l : list A) (k : list B) (i : nat) (a : A) (b : B) :
  l !! i = Some a -> k !! i = Some b -> combine l k !! i = Some (a, b).
Proof.
  revert k i. induction l as [|x l IH]; intros [|y k] [|i]; simpl; try discriminate.
  - intros [= ->] [= ->]. reflexivity.
  - apply IH.
Qed.

Lemma omap_yielded_map {A : Type} (f : A -> Dict) (l : list A) :
  omap yielded (map (fun a => Yield (f a)) l) = map f l.
Proof. induction l as [|a l IH]; simpl; [reflexivity|]. f_equal. exact IH. Qed.

Lemma omap_yielded_print (k : nat) (trace : list Event) :
  omap yielded (PrintNoise k :: trace) = omap yielded trace.
Proof. reflexivity. Qed.

Lemma omap_yielded_batches (bs : list (list Vector)) :
  omap yielded (map (fun b => MembershipVector (map (map to_float32) b)) bs) = [].
Proof. induction bs as [|b bs IH]; simpl; [reflexivity | exact IH]. Qed.

Lemma concat_map_length {A B : Type} (f : list A -> list B) (ls : list (list A)) :
  Forall (fun l => length (f l) = length l) ls ->
  length (concat (map f ls)) = length (concat ls).
Proof.
  induction 1 as [|l ls Hl _ IH]; simpl; [reflexivity|].
  rewrite !length_app, Hl, IH. reflexivity.
Qed.

(** The block from the count of the noise points on, when the
    reassignment is skipped. *)
Lemma reassign_and_yield_skip (w : World) (c : Clusterer) (vectors : list Vector) :
  labels_ c <> [] ->
  (length (labels_ c) <= length vectors)%nat ->
  num_noise (labels_ c) = 0%nat \/ num_noise (labels_ c) = length (labels_ c) ->
  reassign_and_yield w c vectors
  = (PrintNoise (num_noise (labels_ c))
       :: map (fun cm => Yield (cluster_item (fst cm) (snd cm)))
            (combine (labels_ c) (probabilities_ c)),
     Ok tt).
Proof.
  intros Hne Hlen Hskip. unfold reassign_and_yield.
  rewrite count_noise_run by assumption. unfold tbind at 1.
  unfold reassign_noise. rewrite noise_vectors_length by exact Hlen.
  replace ((0 <? num_noise (labels_ c))%nat
           && (num_noise (labels_ c) <? length (labels_ c))%nat) with false.
  - simpl. rewrite for_each_emit_trace. reflexivity.
  - symmetry. apply andb_false_iff.
    destruct Hskip as [H0 | Hall]; [left | right]; apply Nat.ltb_ge; lia.
Qed.

(** The same block when the reassignment runs. *)
Lemma reassign_and_yield_active (w : World) (c : Clusterer) (vectors : list Vector) :
  let noisy := noise_vectors (labels_ c) vectors in
  length (labels_ c) = length vectors ->
  length (probabilities_ c) = length (labels_ c) ->
  (0 < num_noise (labels_ c) < length (labels_ c))%nat ->
  Forall (fun row => row <> []) (soft_rows w c noisy) ->
  (num_noise (labels_ c) <= length (soft_rows w c noisy))%nat ->
  exists (la : list Z) (pa : list float),
    mapM np_argmax (soft_rows w c noisy) = Ok la
    /\ mapM np_max (soft_rows w c noisy) = Ok pa
    /\ reassign_and_yield w c vectors
       = (PrintNoise (num_noise (labels_ c))
            :: map (fun b => MembershipVector (map (map to_float32) b))
                 (chunks noisy BATCH_SOFT_CLUSTER_NOISE)
            ++ map (fun cm => Yield (cluster_item (fst cm) (snd cm)))
                 (combine (reassigned (labels_ c) (labels_ c) (map to_int32 la))
                          (reassigned (labels_ c) (probabilities_ c) (map to_float32 pa))),
          Ok tt).
Proof.
  intros noisy Hlen Hprobs Hk Hrows Henough.
  assert (Hne : labels_ c <> []) by (destruct (labels_ c); [simpl in Hk; lia | discriminate]).
  destruct (soft_cluster_batches_run w c (chunks noisy BATCH_SOFT_CLUSTER_NOISE) Hrows)
    as (ls & ps & Hrun & Hls & Hps).
  exists (concat ls), (concat ps). split; [exact Hls|]. split; [exact Hps|].
  unfold reassign_and_yield. rewrite count_noise_run by (try assumption; lia).
  unfold tbind at 1. unfold reassign_noise.
  rewrite noise_vectors_length by lia. fold noisy.
  replace ((0 <? num_noise (labels_ c))%nat
           && (num_noise (labels_ c) <? length (labels_ c))%nat) with true
    by (symmetry; apply andb_true_iff; split; apply Nat.ltb_lt; lia).
  simpl. rewrite Hrun. simpl.
  rewrite assign_noise_run.
  - simpl. rewrite for_each_emit_trace. simpl. rewrite app_nil_r. reflexivity.
  - symmetry. exact Hprobs.
  - rewrite length_map, (mapM_length _ _ _ Hls). exact Henough.
  - rewrite length_map, (mapM_length _ _ _ Hps). exact Henough.
Qed.

Lemma map_lookup {A B : Type} (f : A -> B) (l : list A) (i : nat) (a : A) :
  l !! i = Some a -> map f l !! i = Some (f a).
Proof.
  revert i. induction l as [|x l IH]; intros [|i]; simpl; try discriminate.
  - intros [= ->]. reflexivity.
  - apply IH.
Qed.

Lemma reduce_dimensions_quiet (w : World) (all_vectors : list Vector) :
  omap yielded (fst (reduce_dimensions w all_vectors)) = []
  /\ omap membership_call (fst (reduce_dimensions w all_vectors)) = [].
Proof.
  destruct all_vectors as [|first rest]; [split; reflexivity|].
  rewrite reduce_dimensions_run.
  destruct ((5 <? Z.of_nat (length first)) && (5 <? Z.of_nat (length (first :: rest))));
    split; reflexivity.
Qed.

(** A run whose embeddings and reduction succeed ends as the block after
    the fit ends, and yields what that block yields. *)
Lemma local_run_after_fit (w : World) (docs : Docs) (m : Z)
    (all_vectors reduced : list Vector) :
  snd (compute_embeddings w docs) = Ok all_vectors ->
  snd (reduce_dimensions w all_vectors) = Ok reduced ->
  let run := _hdbscan_cluster w docs m false in
  let block := reassign_and_yield w (fitted w reduced m) reduced in
  snd run = snd block
  /\ omap yielded (fst run) = omap yielded (fst block)
  /\ omap membership_call (fst run) = omap membership_call (fst block).
Proof.
  intros He Hr run block. unfold run. rewrite local_run.
  split; [|split].
  - unfold local_steps. rewrite tbind_result, He, tbind_result, Hr, tbind_result.
    rewrite fit_clusterer_run. reflexivity.
  - rewrite local_steps_trace, He, Hr, !omap_app.
    rewrite (proj1 (reduce_dimensions_quiet w all_vectors)). reflexivity.
  - rewrite local_steps_trace, He, Hr, !omap_app.
    rewrite (proj2 (reduce_dimensions_quiet w all_vectors)). reflexivity.
Qed.

(** C3: when the fit labels no point or every point as noise, the run
    makes no soft membership computation and yields, for every point, the
    label and the membership probability of the fit. *)
Theorem reassignment_skipped_is_identity (w : World) (docs : Docs) (m : Z)
    (all_vectors reduced : list Vector) :
  snd (compute_embeddings w docs) = Ok all_vectors ->
  snd (reduce_dimensions w all_vectors) = Ok reduced ->
  let c := fitted w reduced m in
  labels_ c <> [] ->
  (length (labels_ c) <= length reduced)%nat ->
  num_noise (labels_ c) = 0%nat \/ num_noise (labels_ c) = length (labels_ c) ->
  let run := _hdbscan_cluster w docs m false in
  snd run = Ok tt
  /\ omap membership_call (fst run) = []
  /\ omap yielded (fst run)
     = map (fun lp => cluster_item (fst lp) (snd lp))
         (combine (labels_ c) (probabilities_ c))
  /\ reassign_noise w c (noise_vectors (labels_ c) reduced)
     = ([], Ok (labels_ c, probabilities_ c)).
Proof.
  intros He Hr c Hne Hlen Hskip run.
  destruct (local_run_after_fit w docs m all_vectors reduced He Hr) as (Hres & Hy & Hm).
  fold run in Hres, Hy, Hm. fold c in Hres, Hy, Hm.
  rewrite (reassign_and_yield_skip w c reduced Hne Hlen Hskip) in Hres, Hy, Hm.
  split; [exact Hres|]. split; [|split].
  - rewrite Hm. simpl. apply omap_none. apply Forall_map. apply Forall_true. reflexivity.
  - rewrite Hy. simpl. apply omap_yielded_map.
  - unfold reassign_noise. rewrite noise_vectors_length by exact Hlen.
    replace ((0 <? num_noise (labels_ c))%nat
             && (num_noise (labels_ c) <? length (labels_ c))%nat) with false;
      [reflexivity|].
    symmetry. apply andb_false_iff.
    destruct Hskip as [H0 | Hall]; [left | right]; apply Nat.ltb_ge; lia.
Qed.

(** C2, as the code has it: when the fit labels some but not all points as
    noise (and the soft membership computation gives one non-empty row of at
    most 2^31 entries per noise point), the run ends normally; the item
    yielded for a noise point carries, as cluster id, the index of the first
    maximum of the point's soft membership vector and, as membership
    probability, that maximum rounded to a 32 bit float; the items of the
    other points carry the label and the probability of the fit. *)
Theorem noise_points_take_best_soft_cluster (w : World) (docs : Docs) (m : Z)
    (all_vectors reduced : list Vector) :
  snd (compute_embeddings w docs) = Ok all_vectors ->
  snd (reduce_dimensions w all_vectors) = Ok reduced ->
  let c := fitted w reduced m in
  let noisy := noise_vectors (labels_ c) reduced in
  length (labels_ c) = length reduced ->
  length (probabilities_ c) = length (labels_ c) ->
  (0 < num_noise (labels_ c) < length (labels_ c))%nat ->
  Forall (fun batch => length (rows_of w c batch) = length batch)
    (chunks noisy BATCH_SOFT_CLUSTER_NOISE) ->
  Forall (fun row => row <> [] /\ Z.of_nat (length row) <= 2 ^ 31) (soft_rows w c noisy) ->
  let run := _hdbscan_cluster w docs m false in
  snd run = Ok tt
  /\ length (omap yielded (fst run)) = length (labels_ c)
  /\ noise_points_assigned to_float32 w c reduced (omap yielded (fst run))
  /\ clustered_points_kept c (omap yielded (fst run)).
Proof.
  intros He Hr c noisy Hlen Hprobs Hk Hbatch Hrows run.
  assert (Henough : (num_noise (labels_ c) <= length (soft_rows w c noisy))%nat).
  { unfold soft_rows. rewrite (concat_map_length _ _ Hbatch).
    rewrite chunks_concat by (unfold BATCH_SOFT_CLUSTER_NOISE; lia).
    unfold noisy. rewrite noise_vectors_length by lia. reflexivity. }
  assert (Hnonempty : Forall (fun row => row <> []) (soft_rows w c noisy)).
  { eapply Forall_impl; [exact Hrows|]. intros row [H _]. exact H. }
  destruct (reassign_and_yield_active w c reduced Hlen Hprobs Hk Hnonempty Henough)
    as (la & pa & Hla & Hpa & Hblock).
  destruct (local_run_after_fit w docs m all_vectors reduced He Hr) as (Hres & Hy & _).
  fold run in Hres, Hy. fold c in Hres, Hy. rewrite Hblock in Hres, Hy.
  cbn [fst snd] in Hres, Hy.
  rewrite omap_yielded_print, omap_app, omap_yielded_batches, omap_yielded_map in Hy.
  rewrite app_nil_l in Hy.
  assert (Hlal : length la = length (soft_rows w c noisy)) by exact (mapM_length _ _ _ Hla).
  assert (Hpal : length pa = length (soft_rows w c noisy)) by exact (mapM_length _ _ _ Hpa).
  assert (Hnl : (num_noise (labels_ c) <= length (map to_int32 la))%nat)
    by (rewrite length_map; lia).
  assert (Hnp : (num_noise (labels_ c) <= length (map to_float32 pa))%nat)
    by (rewrite length_map; lia).
  split; [exact Hres|]. split; [|split].
  - rewrite Hy, length_map, length_combine, !reassigned_length. lia.
  - intros i Hi.
    destruct (reassigned_lookup_noise (labels_ c) (labels_ c) (map to_int32 la) i (-1)
                eq_refl Hnl Hi eq_refl) as [Hli Hrank].
    destruct (reassigned_lookup_noise (labels_ c) (probabilities_ c) (map to_float32 pa)
                i (-1) (eq_sym Hprobs) Hnp Hi eq_refl) as [Hpi _].
    destruct (lookup_lt_is_Some_2 la (noise_rank (labels_ c) i)) as [a Ha]; [lia|].
    destruct (lookup_lt_is_Some_2 pa (noise_rank (labels_ c) i)) as [p Hp]; [lia|].
    destruct (mapM_lookup _ _ _ _ _ Hla Ha) as (row & Hrow & Hamax).
    destruct (mapM_lookup _ _ _ _ _ Hpa Hp) as (row' & Hrow' & Hpmax).
    rewrite Hrow in Hrow'. injection Hrow' as <-.
    destruct (np_argmax_max_consistent row a p Hamax Hpmax) as [Hrange Hentry].
    assert (Hbound : Z.of_nat (length row) <= 2 ^ 31).
    { rewrite Forall_forall in Hrows.
      apply (Hrows row). apply list_elem_of_lookup. eauto. }
    exists row, a, p. repeat split; try assumption.
    rewrite Hy. rewrite <- (to_int32_small a) by lia.
    apply (map_lookup (fun lp => cluster_item (fst lp) (snd lp)) _ i
             (to_int32 a, to_float32 p)).
    apply combine_lookup.
    + rewrite Hli. apply map_lookup. exact Ha.
    + rewrite Hpi. apply map_lookup. exact Hp.
  - intros i label prob Hi Hlabel Hprob.
    assert (Hnot : is_noise label = false) by (apply Z.eqb_neq; exact Hlabel).
    rewrite Hy.
    apply (map_lookup (fun lp => cluster_item (fst lp) (snd lp)) _ i (label, prob)).
    apply combine_lookup.
    + rewrite (reassigned_lookup_other (labels_ c) (labels_ c) _ i label eq_refl Hnl Hi Hnot).
      exact Hi.
    + rewrite (reassigned_lookup_other (labels_ c) (probabilities_ c) _ i label
                 (eq_sym Hprobs) Hnp Hi Hnot).
      exact Hprob.
Qed.

(* ===================================================================== *)
(** ** Worked examples *)
(* ===================================================================== *)

(** C2, as stated, fails on two documents of which the fit labels the
    first as noise: the soft membership vector of the noise point is
    (0.1, 0.05), its maximum is the binary64 number 0.1, and the probability
    yielded is that number rounded to a 32 bit float, which differs. *)
Lemma noise_probability_is_rounded :
  let w := example_world true in
  let run := _hdbscan_cluster w (DocsList [doc_a; doc_b]) 5 false in
  let c := fitted w example_vectors 5 in
  snd (compute_embeddings w (DocsList [doc_a; doc_b])) = Ok example_vectors
  /\ snd (reduce_dimensions w example_vectors) = Ok example_vectors
  /\ labels_ c = [-1; 0]
  /\ soft_rows w c (noise_vectors (labels_ c) example_vectors) = [[tenth; twentieth]]
  /\ np_max [tenth; twentieth] = Ok tenth
  /\ prob_equals (omap yielded (fst run) !! 0%nat) tenth = false
  /\ prob_equals (omap yielded (fst run) !! 0%nat) (to_float32 tenth) = true
  /\ ~ noise_points_assigned (fun p => p) w c example_vectors (omap yielded (fst run)).
Proof.
  intros w run c.
  assert (Hprob : prob_equals (omap yielded (fst run) !! 0%nat) tenth = false)
    by (vm_compute; reflexivity).
  repeat split; try (vm_compute; reflexivity).
  intros H. destruct (H 0%nat eq_refl) as (row & a & p & Hrow & Ha & Hp & _ & Hitem).
  vm_compute in Hrow. injection Hrow as <-.
  vm_compute in Ha. injection Ha as <-.
  vm_compute in Hp. injection Hp as <-.
  rewrite Hitem in Hprob. vm_compute in Hprob. discriminate.
Qed.

Lemma noise_points_take_best_soft_cluster_witness :
  let w := example_world true in
  let run := _hdbscan_cluster w (DocsList [doc_a; doc_b]) 5 false in
  let c := fitted w example_vectors 5 in
  (0 < num_noise (labels_ c) < length (labels_ c))%nat
  /\ snd run = Ok tt
  /\ length (omap yielded (fst run)) = length (labels_ c)
  /\ noise_points_assigned to_float32 w c example_vectors (omap yielded (fst run))
  /\ clustered_points_kept c (omap yielded (fst run)).
Proof.
  intros w run c. split; [vm_compute; lia|].
  apply (noise_points_take_best_soft_cluster w (DocsList [doc_a; doc_b]) 5
           example_vectors example_vectors).
  - vm_compute. reflexivity.
  - vm_compute. reflexivity.
  - reflexivity.
  - reflexivity.
  - vm_compute. lia.
  - repeat constructor.
  - repeat constructor; [discriminate | vm_compute; discriminate].
Defined.

Lemma reassignment_skipped_is_identity_witness :
  let w := example_world false in
  let run := _hdbscan_cluster w (DocsList [doc_a; doc_b]) 5 false in
  let c := fitted w example_vectors 5 in
  num_noise (labels_ c) = 0%nat
  /\ snd run = Ok tt
  /\ omap membership_call (fst run) = []
  /\ omap yielded (fst run)
     = map (fun lp => cluster_item (fst lp) (snd lp))
         (combine (labels_ c) (probabilities_ c))
  /\ reassign_noise w c (noise_vectors (labels_ c) example_vectors)
     = ([], Ok (labels_ c, probabilities_ c)).
Proof.
  intros w run c. split; [reflexivity|].
  apply (reassignment_skipped_is_identity w (DocsList [doc_a; doc_b]) 5
           example_vectors example_vectors).
  - vm_compute. reflexivity.
  - vm_compute. reflexivity.
  - discriminate.
  - vm_compute. lia.
  - left. reflexivity.
Defined.

Lemma cluster_impl_rejects_bad_path_witness :
  dtype (get_field example_env (normalize_path example_env (PathStr "count")))
  <> Some {| type := "string" |}
  /\ (exists msg,
        cluster_impl example_env (Plain (IsPath (PathStr "count"))) None 5 false false None
          false
        = (preamble None, Raise (ValueError msg)))
  /\ forallb (fun e => negb (touches_dataset e)) (preamble None) = true.
Proof.
  split; [vm_compute; discriminate|].
  apply (cluster_impl_rejects_bad_path example_env (PathStr "count") None 5 false false
           None false).
  - right. vm_compute. discriminate.
  - left. reflexivity.
Defined.

(* ===================================================================== *)
(** ** More on the snippet shortener *)
(* ===================================================================== *)

Lemma lstrip_fixed (s : str) :
  (forall c, head s = Some c -> is_space c = false) -> lstrip s = s.
Proof.
  destruct s as [|c s]; [reflexivity|]. intros H. simpl.
  rewrite (H c eq_refl). reflexivity.
Qed.

Lemma rstrip_fixed (s : str) :
  (forall c, last s = Some c -> is_space c = false) -> rstrip s = s.
Proof.
  intros H. unfold rstrip. rewrite lstrip_fixed.
  - apply reverse_involutive.
  - intros c Hc. rewrite head_reverse in Hc. exact (H c Hc).
Qed.

Lemma last_drop_long {A : Type} (l : list A) (n : nat) :
  (n < length l)%nat -> last (drop n l) = last l.
Proof.
  intros Hn. rewrite !last_lookup, lookup_drop, length_drop. f_equal. lia.
Qed.

Lemma snippet_length_and_ends (text : str) :
  (length (_snippet_to_prefix_and_suffix text) <= 405)%nat
  /\ (forall c, head (_snippet_to_prefix_and_suffix text) = Some c -> is_space c = false)
  /\ (forall c, last (_snippet_to_prefix_and_suffix text) = Some c -> is_space c = false).
Proof.
  unfold _snippet_to_prefix_and_suffix. change _SHORTEN_LEN with 400%nat.
  change (400 / 2)%nat with 200%nat. unfold slice_to, slice_last.
  set (stripped := strip text).
  destruct (Nat.leb_spec (length stripped) 400) as [Hshort|Hlong].
  - split; [lia|]. split; [apply strip_head | apply strip_last].
  - split; [|split].
    + rewrite !length_app, length_take, length_drop.
      change (length ELLIPSIS) with 5%nat. lia.
    + intros c Hc. apply (strip_head text). fold stripped.
      destruct stripped as [|x rest]; [simpl in Hlong; lia|]. exact Hc.
    + intros c Hc. apply (strip_last text). fold stripped.
      rewrite !app_assoc in Hc. rewrite last_app in Hc.
      rewrite last_drop_long in Hc by lia.
      destruct (last stripped) as [y|] eqn:Hy; [exact Hc|].
      apply last_None in Hy. rewrite Hy in Hlong. simpl in Hlong. lia.
Qed.

(** X1: the snippet has at most 405 characters, neither starts nor ends
    with white space, and stripping it again changes nothing. *)
Theorem snippet_is_short_and_trimmed (text : str) :
  (length (_snippet_to_prefix_and_suffix text) <= 405)%nat
  /\ (forall c, head (_snippet_to_prefix_and_suffix text) = Some c -> is_space c = false)
  /\ (forall c, last (_snippet_to_prefix_and_suffix text) = Some c -> is_space c = false)
  /\ strip (_snippet_to_prefix_and_suffix text) = _snippet_to_prefix_and_suffix text.
Proof.
  destruct (snippet_length_and_ends text) as (Hlen & Hhead & Hlast).
  repeat split; try assumption.
  unfold strip. rewrite (lstrip_fixed _ Hhead). apply rstrip_fixed. exact Hlast.
Qed.

(* ===================================================================== *)
(** ** More on the labelers *)
(* ===================================================================== *)

Lemma total_sleep_backoff_trace (random : nat -> Q) (n retries : nat) :
  (forall m, (0 <= random m)%Q /\ (random m <= 1)%Q) ->
  (total_sleep (backoff_trace request_policy random n retries) <= backoff_budget n retries)%Q.
Proof.
  intros Hu. revert n. induction retries as [|retries IH]; intros n; simpl.
  - apply Qle_refl.
  - apply Qplus_le_compat; [|apply IH].
    destruct (Hu n) as [H0 H1].
    apply (wait_random_exponential_bound (random n) n H0 H1).
Qed.

Lemma backoff_budget_nine (retries : nat) :
  (retries <= 9)%nat -> (backoff_budget 1 retries <= 367 # 2)%Q.
Proof.
  intros H.
  do 10 (destruct retries as [|retries]; [vm_compute; discriminate|]).
  lia.
Qed.

Lemma retry_total_sleep {A : Type} (fn : nat -> Result A) (random : nat -> Q) :
  (forall m, (0 <= random m)%Q /\ (random m <= 1)%Q) ->
  (total_sleep (fst (retry request_policy fn random)) <= 367 # 2)%Q.
Proof.
  intros Hu. destruct (retry_follows_contract fn random) as (k & Hk & Htrace & _).
  rewrite Htrace. eapply Qle_trans; [apply total_sleep_backoff_trace; exact Hu|].
  apply backoff_budget_nine. lia.
Qed.

(** X2: whatever the text-generation backend answers, a labeler spends at
    most 183.5 seconds asleep between its attempts (the random draws lying
    between 0 and 1). *)
Theorem labelers_total_backoff_bounded (ai : OpenAI) (ranked_docs : list (str * float)) :
  (forall m, (0 <= backoff_random ai m)%Q /\ (backoff_random ai m <= 1)%Q) ->
  (total_sleep (fst (summarize_request ai ranked_docs)) <= 367 # 2)%Q
  /\ (total_sleep (fst (generate_category ai ranked_docs)) <= 367 # 2)%Q.
Proof.
  intros Hu. unfold summarize_request, generate_category.
  destruct (openai_installed ai); simpl.
  - split; apply retry_total_sleep; exact Hu.
  - split; discriminate.
Qed.

Lemma labelers_total_backoff_bounded_witness :
  (forall m, (0 <= backoff_random example_ai m)%Q /\ (backoff_random example_ai m <= 1)%Q)
  /\ (total_sleep (fst (summarize_request example_ai [(doc_a, 1%float)])) <= 367 # 2)%Q
  /\ (total_sleep (fst (generate_category example_ai [(doc_a, 1%float)])) <= 367 # 2)%Q.
Proof.
  assert (Hu : forall m, (0 <= backoff_random example_ai m)%Q
                         /\ (backoff_random example_ai m <= 1)%Q).
  { intros m. split; vm_compute; discriminate. }
  split; [exact Hu|].
  apply (labelers_total_backoff_bounded example_ai [(doc_a, 1%float)] Hu).
Defined.

Lemma firstn_erased_scores (k : nat) (ranked_docs : list (str * float)) :
  map fst (take k (map (fun d => (fst d, 0%float)) (take k ranked_docs)))
  = map fst (take k ranked_docs).
Proof.
  rewrite (firstn_map (fun d : str * float => (fst d, 0%float))).
  rewrite take_take, Nat.min_id, map_map. reflexivity.
Qed.

(** X3: the title request is built from the texts of the first seven
    ranked documents alone: the scores and the later documents change
    nothing in what [summarize_request] does. *)
Theorem summarize_request_reads_top_docs (ai : OpenAI) (ranked_docs : list (str * float)) :
  summarize_request ai ranked_docs
  = summarize_request ai (map (fun d => (fst d, 0%float)) (take 7 ranked_docs)).
Proof.
  unfold summarize_request. change _TOP_K_CENTRAL_DOCS with 7%nat.
  rewrite (firstn_erased_scores 7 ranked_docs). reflexivity.
Qed.

(** X4: the category request is built from the first fifteen titles
    alone: the scores and the later titles change nothing in what
    [generate_category] does. *)
Theorem generate_category_reads_top_titles (ai : OpenAI) (ranked_docs : list (str * float)) :
  generate_category ai ranked_docs
  = generate_category ai (map (fun d => (fst d, 0%float)) (take 15 ranked_docs)).
Proof.
  unfold generate_category. change _TOP_K_CENTRAL_TITLES with 15%nat.
  rewrite (firstn_erased_scores 15 ranked_docs). reflexivity.
Qed.

Lemma join_newline_length (parts : list str) :
  Forall (fun p => (length p <= 431)%nat) parts ->
  (length (join [NEWLINE] parts) <= length parts * 432 - 1)%nat.
Proof.
  induction 1 as [|p rest Hp Hrest IH]; simpl; [lia|].
  destruct rest as [|q rest]; [simpl; lia|].
  rewrite !length_app. simpl length in *. lia.
Qed.

(** X5: the prompt of a title request has at most 3023 characters,
    whatever the number and the size of the documents; the request asks for
    temperature zero and at most 50 tokens. *)
Theorem summarize_request_prompt_bounded (ai : OpenAI) (ranked_docs : list (str * float)) :
  if openai_installed ai
  then exists request : ChatRequest,
         summarize_request ai ranked_docs
         = retry request_policy (chat_completions_create ai request) (backoff_random ai)
         /\ (length (user_content request) <= 3023)%nat
         /\ temperature request = 0%float
         /\ max_tokens request = 50
  else summarize_request ai ranked_docs = ([], Raise ImportError).
Proof.
  unfold summarize_request. destruct (openai_installed ai); cbn [negb]; [|reflexivity].
  eexists. split; [reflexivity|]. cbn [user_content temperature max_tokens].
  split; [|split; reflexivity].
  eapply Nat.le_trans; [apply join_newline_length|].
  - apply Forall_map. apply Forall_true. intros doc.
    destruct (snippet_length_and_ends doc) as [Hlen _].
    rewrite !length_app.
    change (length (lit "BEGIN_REQUEST")) with 13%nat.
    change (length (lit "END_REQUEST")) with 11%nat.
    change (length [NEWLINE]) with 1%nat. lia.
  - rewrite !length_map.
    change _TOP_K_CENTRAL_DOCS with 7%nat.
    rewrite length_take. lia.
Qed.

(* ===================================================================== *)
(** ** More on [_compute_titles] *)
(* ===================================================================== *)

Lemma SFcompare_antisym (f1 f2 : spec_float) :
  SFcompare f2 f1 = option_map CompOpp (SFcompare f1 f2).
Proof.
  destruct f1 as [s1|s1| |s1 m1 e1], f2 as [s2|s2| |s2 m2 e2]; simpl;
    try reflexivity;
    try (destruct s1; reflexivity); try (destruct s2; reflexivity);
    try (destruct s1, s2; reflexivity).
  destruct s1, s2; simpl; try reflexivity;
    rewrite (Z.compare_antisym e1 e2); destruct (e1 ?= e2); simpl; try reflexivity;
    rewrite (Pos.compare_cont_antisym m1 m2 Eq); reflexivity.
Qed.

Lemma ltb_asym (a b : float) : PrimFloat.ltb a b = true -> PrimFloat.ltb b a = false.
Proof.
  rewrite !ltb_spec. unfold SFltb.
  rewrite (SFcompare_antisym (Prim2SF a) (Prim2SF b)).
  destruct (SFcompare (Prim2SF a) (Prim2SF b)) as [[]|]; simpl; congruence.
Qed.

Lemma insert_desc_chain (x : str * float) (l : list (str * float)) :
  desc_chain l -> desc_chain (insert_desc x l).
Proof.
  induction l as [|y rest IH]; intros Hl; [exact I|].
  simpl insert_desc. destruct (PrimFloat.ltb (snd x) (snd y)) eqn:Hxy.
  - destruct rest as [|z rest].
    + simpl. split; [apply ltb_asym; exact Hxy | exact I].
    + destruct Hl as [Hyz Hrest]. specialize (IH Hrest).
      simpl insert_desc in *. destruct (PrimFloat.ltb (snd x) (snd z)).
      * split; [exact Hyz | exact IH].
      * split; [apply ltb_asym; exact Hxy | exact IH].
  - split; [exact Hxy | exact Hl].
Qed.

Lemma sort_desc_chain (l : list (str * float)) : desc_chain (sort_desc l).
Proof.
  induction l as [|x l IH]; [exact I|]. simpl. apply insert_desc_chain. exact IH.
Qed.

Lemma desc_chain_descending (l : list (str * float)) : desc_chain l -> descending l.
Proof.
  induction l as [|a rest IH]; intros Hl i x y Hx Hy.
  - rewrite lookup_nil in Hx. discriminate.
  - destruct rest as [|b rest]; [destruct i; discriminate|].
    destruct Hl as [Hab Hrest]. destruct i as [|i].
    + simpl in Hx, Hy. injection Hx as <-. injection Hy as <-. exact Hab.
    + exact (IH Hrest i x y Hx Hy).
Qed.

(** X6: the job of a well-typed group is built without an error, and the
    documents a job hands to the topic function are in descending order of
    membership probability: none is directly followed by a document with a
    strictly higher score; the group size sent with them is the number of
    rows of the group. *)
Theorem ranked_documents_descend (shuffle : nat -> list (str * float) -> list (str * float))
    (text_column id_column membership_column : string) (n : nat) (group : list Item) :
  (forallb (typed_row text_column id_column membership_column) group = true ->
   exists job, delayed_job shuffle text_column id_column membership_column n group = Ok job)
  /\ (forall job,
        delayed_job shuffle text_column id_column membership_column n group = Ok job ->
        descending (fst job) /\ snd job = length group).
Proof.
  unfold delayed_job. split.
  - intros Ht.
    destruct (collect_sorted_docs_typed text_column id_column membership_column group Ht)
      as (docs & -> & _).
    eexists. reflexivity.
  - intros job.
    destruct (collect_sorted_docs text_column id_column membership_column group); simpl;
      [|discriminate].
    intros [= <-]. split; [|reflexivity]. apply desc_chain_descending, sort_desc_chain.
Qed.

Lemma ranked_documents_descend_witness :
  exists job,
    delayed_job keep_order "text" "cluster_id" "cluster_membership_prob" 0 example_group
    = Ok job
    /\ descending (fst job) /\ snd job = length example_group.
Proof.
  destruct (ranked_documents_descend keep_order "text" "cluster_id"
              "cluster_membership_prob" 0 example_group) as [Hruns Hsorted].
  destruct (Hruns eq_refl) as [job Hjob].
  exists job. split; [exact Hjob | exact (Hsorted job Hjob)].
Defined.

Lemma str_eqb_eq (a b : str) : str_eqb a b = true -> a = b.
Proof.
  revert b. induction a as [|x a IH]; intros [|y b]; simpl; try discriminate.
  - reflexivity.
  - intros H. apply andb_true_iff in H as [Hxy Hab].
    apply N.eqb_eq in Hxy. rewrite Hxy, (IH b Hab). reflexivity.
Qed.

Lemma dedup_keeps_texts (docs : list (str * float)) (doc : str * float) :
  doc ∈ docs -> exists doc', doc' ∈ dedup docs /\ fst doc' = fst doc.
Proof.
  revert doc. induction docs as [|d rest IH]; intros doc Hin.
  - apply elem_of_nil in Hin. contradiction.
  - simpl. destruct (existsb (doc_eqb d) rest) eqn:Hdup.
    + apply elem_of_cons in Hin as [-> | Hin]; [|exact (IH doc Hin)].
      apply existsb_exists in Hdup as (e & He & Heq).
      apply andb_true_iff in Heq as [Htext _]. apply str_eqb_eq in Htext.
      destruct (IH e (proj2 (list_elem_of_In _ _) He)) as (e' & He' & Hfst).
      exists e'. split; [exact He' | congruence].
    + apply elem_of_cons in Hin as [-> | Hin].
      * exists d. split; [left | reflexivity].
      * destruct (IH doc Hin) as (e' & He' & Hfst).
        exists e'. split; [right; exact He' | exact Hfst].
Qed.

Lemma ranked_doc_of_qualifying (text_column id_column membership_column : string)
    (item : Item) (doc : str * float) :
  row_qualifies text_column id_column membership_column item doc ->
  ranked_doc text_column id_column membership_column item = Ok (Some doc).
Proof.
  intros (d & k & -> & Hid & Hk & Htext & Hne & Hprob & Hnz).
  unfold ranked_doc.
  assert (Hsize : (size d =? 0)%nat = false).
  { apply Nat.eqb_neq. intros H0. apply map_size_empty_iff in H0.
    rewrite H0, lookup_empty in Hid. discriminate. }
  rewrite Hsize, Hid, Htext, Hprob. simpl.
  replace (k <? 0) with false by (symmetry; apply Z.ltb_ge; exact Hk).
  destruct doc as [s p]. simpl in *. destruct s as [|c s]; [contradiction|].
  rewrite Hnz. reflexivity.
Qed.

Lemma collect_sorted_docs_complete (text_column id_column membership_column : string)
    (group : list Item) (docs : list (str * float)) (item : Item) (doc : str * float) :
  collect_sorted_docs text_column id_column membership_column group = Ok docs ->
  item ∈ group ->
  row_qualifies text_column id_column membership_column item doc ->
  doc ∈ docs.
Proof.
  revert docs. induction group as [|x group IH]; intros docs Hc Hin Hq.
  - apply elem_of_nil in Hin. contradiction.
  - simpl in Hc.
    destruct (ranked_doc text_column id_column membership_column x) as [o|e] eqn:Hx;
      simpl in Hc; [|discriminate].
    destruct (collect_sorted_docs text_column id_column membership_column group)
      as [docs'|e] eqn:Hrest; simpl in Hc; [|discriminate].
    injection Hc as <-.
    apply elem_of_cons in Hin as [-> | Hin].
    + rewrite (ranked_doc_of_qualifying _ _ _ _ _ Hq) in Hx. injection Hx as <-. left.
    + specialize (IH docs' eq_refl Hin Hq). destruct o; [right|]; exact IH.
Qed.

Section RankedComplete.
Variables text_column id_column membership_column : string.
Variable shuffle : nat -> list (str * float) -> list (str * float).
Hypothesis shuffle_permutes : forall n l, shuffle n l ≡ₚ l.

(** X7: no qualifying row is lost: when the job of a group is built, the
    text of every row of the group with a non-negative id, a non-empty text
    and a non-zero membership probability is the text of one of the documents
    handed to the topic function (whatever order the shuffle gives). *)
Theorem ranked_documents_cover_group (n : nat) (group : list Item)
    (job : list (str * float) * nat) (item : Item) (doc : str * float) :
  delayed_job shuffle text_column id_column membership_column n group = Ok job ->
  item ∈ group ->
  row_qualifies text_column id_column membership_column item doc ->
  exists doc', doc' ∈ fst job /\ fst doc' = fst doc.
Proof.
  unfold delayed_job. intros Hjob Hin Hq.
  destruct (collect_sorted_docs text_column id_column membership_column group)
    as [docs|e] eqn:Hc; simpl in Hjob; [|discriminate].
  injection Hjob as <-. simpl.
  destruct (dedup_keeps_texts docs doc
              (collect_sorted_docs_complete _ _ _ _ _ _ _ Hc Hin Hq))
    as (doc' & Hdoc' & Hfst).
  exists doc'. split; [|exact Hfst].
  rewrite sort_desc_perm, shuffle_permutes. exact Hdoc'.
Qed.
End RankedComplete.

Lemma ranked_documents_cover_group_witness :
  delayed_job keep_order "text" "cluster_id" "cluster_membership_prob" 0 example_group
  = Ok ([(doc_a, 1%float); (doc_b, tenth)], 2%nat)
  /\ exists doc', doc' ∈ [(doc_a, 1%float); (doc_b, tenth)] /\ fst doc' = doc_b.
Proof.
  split; [vm_compute; reflexivity|].
  apply (ranked_documents_cover_group "text" "cluster_id" "cluster_membership_prob"
           keep_order (fun n l => Permutation_refl l) 0 example_group
           ([(doc_a, 1%float); (doc_b, tenth)], 2%nat)
           (Some (<["cluster_id"%string := VInt 3]>
                    (<["text"%string := VStr doc_b]>
                       (<["cluster_membership_prob"%string := VFloat tenth]> ∅))))
           (doc_b, tenth)).
  - vm_compute. reflexivity.
  - right. left.
  - eexists. exists 3. repeat split; try (vm_compute; reflexivity); [lia | discriminate].
Defined.

Lemma mapM_app_raise {A B : Type} (f : A -> Result B) (l1 l2 : list A) (a : A)
    (b1 : list B) (e : Exn) :
  mapM f l1 = Ok b1 -> f a = Raise e -> mapM f (l1 ++ a :: l2) = Raise e.
Proof.
  revert b1. induction l1 as [|x l1 IH]; simpl; intros b1 H1 Ha.
  - rewrite Ha. reflexivity.
  - destruct (f x) as [b|e']; simpl in *; [|discriminate].
    destruct (mapM f l1) as [bs|e']; simpl in *; [|discriminate].
    rewrite (IH bs eq_refl Ha). reflexivity.
Qed.

(** X8: a row that is [None], or a dictionary without the id column, makes
    [_compute_titles] fail, with a [TypeError] or a [KeyError] on the column,
    when the rows before it are well typed; no title is computed from the
    rows after it. *)
Theorem compute_titles_needs_id_column
    (shuffle : nat -> list (str * float) -> list (str * float))
    (text_column id_column membership_column : string)
    (good rest : list Item) (bad : Item) (topic_fn : TopicFn)
    (task_info : option TaskInfo) :
  forallb (typed_row text_column id_column membership_column) good = true ->
  let result :=
    _compute_titles shuffle (good ++ bad :: rest) text_column id_column membership_column
      topic_fn task_info in
  (bad = None -> result = Raise TypeError)
  /\ (forall d : Dict, bad = Some d -> d !! id_column = None ->
        result = Raise (KeyError id_column)).
Proof.
  intros Hgood result.
  destruct (keyed_typed text_column id_column membership_column good Hgood)
    as (keyed & Hm & _).
  assert (Hfail : forall e,
            (key <- subscript bad id_column ;; Ok (key, bad))%result = Raise e ->
            result = Raise e).
  { intros e He. unfold result, _compute_titles, _delayed_compute_all_titles,
      group_by_sorted_key_iter.
    rewrite (mapM_app_raise _ good rest bad keyed e Hm He). reflexivity. }
  split.
  - intros ->. apply Hfail. reflexivity.
  - intros d -> Hd. apply Hfail. simpl. rewrite Hd. reflexivity.
Qed.

Lemma compute_titles_needs_id_column_witness :
  forallb (typed_row "text" "cluster_id" "cluster_membership_prob") example_rows = true
  /\ _compute_titles keep_order (example_rows ++ [None]) "text" "cluster_id"
       "cluster_membership_prob" first_doc None
     = Raise TypeError
  /\ _compute_titles keep_order (example_rows ++ [Some ∅]) "text" "cluster_id"
       "cluster_membership_prob" first_doc None
     = Raise (KeyError "cluster_id").
Proof.
  assert (Ht : forallb (typed_row "text" "cluster_id" "cluster_membership_prob")
                 example_rows = true) by (vm_compute; reflexivity).
  split; [exact Ht|]. split.
  - exact (proj1 (compute_titles_needs_id_column keep_order "text" "cluster_id"
                    "cluster_membership_prob" example_rows [] None first_doc None Ht)
             eq_refl).
  - exact (proj2 (compute_titles_needs_id_column keep_order "text" "cluster_id"
                    "cluster_membership_prob" example_rows [] (Some ∅) first_doc None Ht)
             ∅ eq_refl eq_refl).
Defined.

Lemma delayed_jobs_sizes (shuffle : nat -> list (str * float) -> list (str * float))
    (text_column id_column membership_column : string) (n : nat)
    (groups : list (list Item)) :
  Forall (fun g => forallb (typed_row text_column id_column membership_column) g = true)
    groups ->
  exists jobs,
    delayed_jobs shuffle text_column id_column membership_column n groups = Ok jobs
    /\ map snd jobs = map length groups.
Proof.
  revert n. induction groups as [|g groups IH]; intros n Ht; simpl.
  - exists []. split; reflexivity.
  - apply Forall_cons in Ht as [Hg Hgroups].
    destruct (IH (S n) Hgroups) as (jobs & Hj & Hlen).
    destruct (collect_sorted_docs_typed text_column id_column membership_column g Hg)
      as (docs & Hc & _).
    unfold delayed_job. rewrite Hc. simpl. rewrite Hj. simpl.
    eexists. split; [reflexivity|]. simpl. congruence.
Qed.

Lemma add_progress_twice (ti : option TaskInfo) (a b : nat) :
  add_progress (add_progress ti a) b = add_progress ti (a + b).
Proof.
  destruct ti as [ti|]; simpl; [|reflexivity].
  f_equal. f_equal. lia.
Qed.

Lemma fold_progress (topic_fn : TopicFn) (jobs : list (list (str * float) * nat))
    (acc : list (option str)) (ti : option TaskInfo) :
  snd (fold_left
         (fun (acc : list (option str) * option TaskInfo) (job : list (str * float) * nat) =>
            let '(group_size, title) := _compute_title topic_fn (fst job) (snd job) in
            (fst acc ++ repeat title group_size, add_progress (snd acc) group_size))
         jobs (acc, ti))
  = add_progress ti (list_sum (map snd jobs)).
Proof.
  revert acc ti. induction jobs as [|[docs size] jobs IH]; intros acc ti; simpl.
  - destruct ti as [ti|]; simpl; [|reflexivity].
    f_equal. destruct ti. simpl. f_equal. lia.
  - replace (_compute_title topic_fn docs size) with (size, title_of topic_fn docs)
      by (destruct docs; reflexivity).
    simpl. rewrite IH, add_progress_twice. reflexivity.
Qed.

Lemma list_sum_lengths {A : Type} (ls : list (list A)) :
  list_sum (map length ls) = length (concat ls).
Proof.
  induction ls as [|l ls IH]; simpl; [reflexivity|].
  rewrite length_app, IH. reflexivity.
Qed.

Lemma titles_of_jobs_length (topic_fn : TopicFn) (jobs : list (list (str * float) * nat)) :
  length (concat (map (fun job => repeat (title_of topic_fn (fst job)) (snd job)) jobs))
  = list_sum (map snd jobs).
Proof.
  induction jobs as [|[docs size] jobs IH]; simpl; [reflexivity|].
  rewrite length_app, repeat_length, IH. reflexivity.
Qed.

(** X9: on well-typed rows, a run with a task handle ends with the
    progress count at the number of rows, whatever it was before, and leaves
    the message and the total length of the handle as they were; it yields
    one title per row. Without a handle it reports nothing. *)
Theorem compute_titles_reports_every_row
    (shuffle : nat -> list (str * float) -> list (str * float))
    (text_column id_column membership_column : string)
    (items : list Item) (topic_fn : TopicFn) (ti : TaskInfo) :
  forallb (typed_row text_column id_column membership_column) items = true ->
  exists titles,
    length titles = length items
    /\ _compute_titles shuffle items text_column id_column membership_column topic_fn
         (Some ti)
       = Ok (titles, Some (progressed ti (length items)))
    /\ _compute_titles shuffle items text_column id_column membership_column topic_fn None
       = Ok (titles, None).
Proof.
  intros Ht.
  destruct (groups_typed text_column id_column membership_column items Ht)
    as (groups & Hg & Hcat & _).
  assert (Hgt : Forall (fun g => forallb (typed_row text_column id_column membership_column)
                                   g = true) groups).
  { apply forallb_concat. rewrite Hcat. exact Ht. }
  destruct (delayed_jobs_sizes shuffle text_column id_column membership_column 0 groups Hgt)
    as (jobs & Hj & Hsizes).
  assert (Hsum : list_sum (map snd jobs) = length items).
  { rewrite Hsizes, list_sum_lengths, Hcat. reflexivity. }
  exists (concat (map (fun job => repeat (title_of topic_fn (fst job)) (snd job)) jobs)).
  split; [rewrite titles_of_jobs_length; exact Hsum|].
  unfold _compute_titles, _delayed_compute_all_titles. rewrite Hg. simpl. rewrite Hj. simpl.
  split; f_equal; rewrite (surjective_pairing (fold_left _ _ _));
    rewrite fold_titles, fold_progress, Hsum; reflexivity.
Qed.

Lemma compute_titles_reports_every_row_witness :
  forallb (typed_row "text" "cluster_id" "cluster_membership_prob") example_rows = true
  /\ exists titles,
       length titles = length example_rows
       /\ _compute_titles keep_order example_rows "text" "cluster_id"
            "cluster_membership_prob" first_doc (Some example_task)
          = Ok (titles, Some (progressed example_task (length example_rows)))
       /\ _compute_titles keep_order example_rows "text" "cluster_id"
            "cluster_membership_prob" first_doc None
          = Ok (titles, None).
Proof.
  split; [vm_compute; reflexivity|].
  apply (compute_titles_reports_every_row keep_order "text" "cluster_id"
           "cluster_membership_prob" example_rows first_doc example_task).
  vm_compute. reflexivity.
Defined.

(* ===================================================================== *)
(** ** More on [cluster_impl] *)
(* ===================================================================== *)


(* ===================================================================== *)
(** ** More on [cluster_impl] *)
(* ===================================================================== *)

Lemma tbind_events {A : Type} (l : list DsEvent) (k : unit -> Traced DsEvent A) :
  tbind (events_only l) k = after_events l (k tt).
Proof. unfold tbind, events_only, after_events. destruct (k tt). reflexivity. Qed.

Lemma emit_events (e : DsEvent) : emit e = events_only [e].
Proof. reflexivity. Qed.

Lemma ret_events : @ret DsEvent unit tt = events_only [].
Proof. reflexivity. Qed.

Lemma after_events_only (l l' : list DsEvent) :
  after_events l (events_only l') = events_only (l ++ l').
Proof. reflexivity. Qed.

Lemma when_events (b : bool) (l : list DsEvent) :
  when b (events_only l) = events_only (if b then l else []).
Proof. destruct b; reflexivity. Qed.

Lemma tbind_after {A B : Type} (l : list DsEvent) (m : Traced DsEvent A)
    (k : A -> Traced DsEvent B) :
  tbind (after_events l m) k = after_events l (tbind m k).
Proof.
  unfold tbind, after_events. destruct m as [t [a|e]]; simpl.
  - destruct (k a). simpl. rewrite app_assoc. reflexivity.
  - reflexivity.
Qed.

Lemma tbind_raise {A B : Type} (e : Exn) (k : A -> Traced DsEvent B) :
  tbind (raise e) k = raise e.
Proof. reflexivity. Qed.

(** The whole run: either the input is rejected right after the preamble,
    or the run goes through the stages that are needed and ends normally. *)
Lemma cluster_impl_trace (env : Env) (input : ClusterInput) (output_path : option Path)
    (m : Z) (overwrite remote : bool) (task_id : option string) (recompute_titles : bool) :
  match accepted_target env input output_path with
  | Some out =>
      cluster_impl env input output_path m overwrite remote task_id recompute_titles
      = (accepted_trace env input m overwrite remote task_id recompute_titles out, Ok tt)
  | None =>
      cluster_impl env input output_path m overwrite remote task_id recompute_titles
      = (preamble task_id, Raise (ValueError (rejection_message env input)))
  end.
Proof.
  unfold cluster_impl, accepted_target, accepted_trace, cluster_info, accepted_path,
    target_path, has_task_info, preamble, rejection_message.
  destruct input as [[p|f]|name [p|f]]; cbn [selected];
    destruct (string_truthy task_id);
    try destruct (get_task_info env (default "" task_id)) as [ti|];
    try destruct (has_field env (normalize_path env p)); cbn [negb orb];
    try destruct (not_string_field (get_field env (normalize_path env p)));
    destruct (option_path_truthy output_path); cbn [negb];
    try destruct (normalize_path env p) as [|part parts] eqn:Hp;
    repeat rewrite ?tbind_ret, ?tbind_raise, ?emit_events, ?ret_events, ?tbind_events,
      ?tbind_after, ?after_events_only, ?when_events;
    cbn [is_some andb];
    repeat rewrite ?tbind_ret, ?tbind_raise, ?emit_events, ?ret_events, ?tbind_events,
      ?tbind_after, ?after_events_only, ?when_events.
  all: try reflexivity.
  all: unfold events_only; f_equal;
    cbn [flat_map ALL_STAGES stage_needed stage_target titles_stage stage_events app];
    rewrite ?andb_false_r, ?orb_false_r, ?andb_true_r, ?app_nil_r;
    repeat rewrite <- app_assoc; cbn [app];
    unfold stage_needed; cbn [stage_target titles_stage];
    rewrite ?andb_false_r, ?orb_false_r, ?andb_true_r; reflexivity.
Qed.

Lemma accepted_target_is_target (env : Env) (input : ClusterInput)
    (output_path : option Path) (out : PathTuple) :
  accepted_target env input output_path = Some out ->
  target_path env input output_path = Some out.
Proof.
  unfold accepted_target. destruct (selected input); [|auto].
  destruct (accepted_path env input); [auto | discriminate].
Qed.

Lemma preamble_no_stage (task_id : option string) :
  omap stage_of (preamble task_id) = [] /\ dataset_writes (preamble task_id) = []
  /\ forallb (fun e => negb (is_completion e)) (preamble task_id) = true.
Proof. unfold preamble. destruct (string_truthy task_id); repeat split. Qed.

(** The tactic that runs through the cases of an accepted trace: which
    stages are needed, and whether there is a task. *)
Ltac stage_cases env out overwrite recompute_titles :=
  unfold accepted_trace, preamble;
  cbn [flat_map ALL_STAGES];
  generalize (stage_needed env out overwrite recompute_titles extract_text);
  generalize (stage_needed env out overwrite recompute_titles compute_clusters);
  generalize (stage_needed env out overwrite recompute_titles compute_cluster_titles);
  generalize (stage_needed env out overwrite recompute_titles compute_category_clusters);
  generalize (stage_needed env out overwrite recompute_titles compute_category_titles);
  intros [] [] [] [] [].

(** X10: provided every call to the dataset returns, a run whose input
    is accepted ends normally and executes, in the fixed order text
    extraction, leaf clustering, leaf titles, category clustering, category
    titles, exactly the stages whose column is missing under the output path
    or that [overwrite] or (from the leaf titles on) [recompute_titles]
    forces; a run whose input the checks at the start reject raises their
    [ValueError] and executes no stage. (An exception raised inside
    [dataset.map] or [dataset.transform] is outside this model: it would
    end the run after the stages before it.) *)
Theorem cluster_impl_stages (env : Env) (input : ClusterInput) (output_path : option Path)
    (m : Z) (overwrite remote : bool) (task_id : option string) (recompute_titles : bool) :
  let run := cluster_impl env input output_path m overwrite remote task_id recompute_titles in
  match accepted_target env input output_path with
  | Some out =>
      snd run = Ok tt
      /\ target_path env input output_path = Some out
      /\ omap stage_of (fst run)
         = List.filter (stage_needed env out overwrite recompute_titles) ALL_STAGES
  | None =>
      snd run = Raise (ValueError (rejection_message env input))
      /\ omap stage_of (fst run) = []
  end.
Proof.
  intros run. unfold run.
  pose proof (cluster_impl_trace env input output_path m overwrite remote task_id
                recompute_titles) as Hrun.
  destruct (accepted_target env input output_path) as [out|] eqn:Hout.
  - rewrite Hrun. cbn [fst snd]. split; [reflexivity|].
    split; [exact (accepted_target_is_target _ _ _ _ Hout)|].
    unfold ALL_STAGES at 1. cbn [List.filter].
    stage_cases env out overwrite recompute_titles;
      destruct (string_truthy task_id); destruct (has_task_info env task_id); reflexivity.
  - rewrite Hrun. cbn [fst snd]. split; [reflexivity | apply preamble_no_stage].
Qed.

(** X11: a run whose five columns all exist under the output path, with
    neither [overwrite] nor [recompute_titles], does nothing to the dataset:
    after the preamble it only marks the task, if any, as completed. *)
Theorem cluster_impl_resume_is_noop (env : Env) (input : ClusterInput)
    (output_path : option Path) (m : Z) (remote : bool) (task_id : option string)
    (out : PathTuple) :
  accepted_target env input output_path = Some out ->
  (forall s, has_field env (out ++ [stage_target s]) = true) ->
  let run := cluster_impl env input output_path m false remote task_id false in
  run = (preamble task_id
           ++ (if string_truthy task_id then [SetCompleted (default "" task_id)] else []),
         Ok tt)
  /\ forallb (fun e => negb (touches_dataset e)) (fst run) = true.
Proof.
  intros Hout Hall run. unfold run.
  pose proof (cluster_impl_trace env input output_path m false remote task_id false) as Hrun.
  rewrite Hout in Hrun. rewrite Hrun. unfold accepted_trace.
  assert (Hskip : forall s, stage_needed env out false false s = false).
  { intros s. unfold stage_needed. rewrite Hall. reflexivity. }
  cbn [flat_map ALL_STAGES]. rewrite !Hskip. cbn [app fst].
  split; [reflexivity|].
  rewrite forallb_app, preamble_no_dataset_access.
  destruct (string_truthy task_id); reflexivity.
Qed.

Lemma cluster_impl_resume_is_noop_witness :
  accepted_target complete_env (Plain (IsPath (PathStr "text"))) None
  = Some ["text__cluster"%string]
  /\ cluster_impl complete_env (Plain (IsPath (PathStr "text"))) None 5 false false
       (Some "task"%string) false
     = ([GetTaskManager; GetTaskInfo "task"; Manifest; SetCompleted "task"], Ok tt).
Proof.
  split; [reflexivity|].
  apply (cluster_impl_resume_is_noop complete_env (Plain (IsPath (PathStr "text"))) None 5
           false (Some "task"%string) ["text__cluster"%string] eq_refl (fun s => eq_refl)).
Defined.

(** X12: the task plays no part in what is computed: with or without a
    task id, and whatever the task manager answers, a run ends the same way
    and makes the same calls of [dataset.map] and [dataset.transform], with
    the same arguments, in the same order. *)
Theorem cluster_impl_task_independent (env : Env) (input : ClusterInput)
    (output_path : option Path) (m : Z) (overwrite remote : bool)
    (task_id : option string) (recompute_titles : bool) :
  let with_task :=
    cluster_impl env input output_path m overwrite remote task_id recompute_titles in
  let without_task :=
    cluster_impl env input output_path m overwrite remote None recompute_titles in
  dataset_writes (fst with_task) = dataset_writes (fst without_task)
  /\ snd with_task = snd without_task.
Proof.
  intros with_task without_task. unfold with_task, without_task.
  pose proof (cluster_impl_trace env input output_path m overwrite remote task_id
                recompute_titles) as H1.
  pose proof (cluster_impl_trace env input output_path m overwrite remote None
                recompute_titles) as H2.
  destruct (accepted_target env input output_path) as [out|].
  - rewrite H1, H2. cbn [fst snd]. split; [|reflexivity].
    unfold accepted_trace, preamble. cbn [flat_map ALL_STAGES].
    generalize (stage_needed env out overwrite recompute_titles extract_text).
    generalize (stage_needed env out overwrite recompute_titles compute_clusters).
    generalize (stage_needed env out overwrite recompute_titles compute_cluster_titles).
    generalize (stage_needed env out overwrite recompute_titles compute_category_clusters).
    generalize (stage_needed env out overwrite recompute_titles compute_category_titles).
    intros [] [] [] [] []; destruct (string_truthy task_id);
      destruct (has_task_info env task_id); reflexivity.
  - rewrite H1, H2. cbn [fst snd]. split; [|reflexivity].
    rewrite !(proj1 (proj2 (preamble_no_stage _))). reflexivity.
Qed.

(** X13: every call of [dataset.map] and [dataset.transform] a run makes
    is made with [overwrite=True], whatever the [overwrite] argument of the
    run, and under one and the same path: the output path of the run, which
    every transform both reads and writes. *)
Theorem cluster_impl_writes_under_target (env : Env) (input : ClusterInput)
    (output_path : option Path) (m : Z) (overwrite remote : bool)
    (task_id : option string) (recompute_titles : bool) :
  let run := cluster_impl env input output_path m overwrite remote task_id recompute_titles in
  match target_path env input output_path with
  | Some out => Forall (writes_under out) (fst run)
  | None => dataset_writes (fst run) = []
  end.
Proof.
  intros run. unfold run.
  pose proof (cluster_impl_trace env input output_path m overwrite remote task_id
                recompute_titles) as Hrun.
  assert (Hpre : forall out, Forall (writes_under out) (preamble task_id)).
  { intros out. unfold preamble. destruct (string_truthy task_id); repeat constructor. }
  destruct (accepted_target env input output_path) as [out|] eqn:Hout.
  - rewrite (accepted_target_is_target _ _ _ _ Hout), Hrun. cbn [fst].
    unfold accepted_trace. apply Forall_app. split; [apply Hpre|].
    cbn [flat_map ALL_STAGES].
    generalize (stage_needed env out overwrite recompute_titles extract_text).
    generalize (stage_needed env out overwrite recompute_titles compute_clusters).
    generalize (stage_needed env out overwrite recompute_titles compute_cluster_titles).
    generalize (stage_needed env out overwrite recompute_titles compute_category_clusters).
    generalize (stage_needed env out overwrite recompute_titles compute_category_titles).
    intros [] [] [] [] []; destruct (string_truthy task_id);
      destruct (has_task_info env task_id); repeat constructor.
  - rewrite Hrun. cbn [fst].
    destruct (target_path env input output_path) as [out|].
    + apply Hpre.
    + apply preamble_no_stage.
Qed.

(** X14: a run that ends normally with a task id marks the task as
    completed, and does so last; a run without a task id, and a run that
    raises, never mark a task as completed. *)
Theorem cluster_impl_completion (env : Env) (input : ClusterInput)
    (output_path : option Path) (m : Z) (overwrite remote : bool)
    (task_id : option string) (recompute_titles : bool) :
  let run := cluster_impl env input output_path m overwrite remote task_id recompute_titles in
  match snd run with
  | Ok _ =>
      if string_truthy task_id
      then last (fst run) = Some (SetCompleted (default "" task_id))
           /\ length (List.filter is_completion (fst run)) = 1%nat
      else List.filter is_completion (fst run) = []
  | Raise _ => List.filter is_completion (fst run) = []
  end.
Proof.
  intros run. unfold run.
  pose proof (cluster_impl_trace env input output_path m overwrite remote task_id
                recompute_titles) as Hrun.
  destruct (accepted_target env input output_path) as [out|] eqn:Hout.
  - rewrite Hrun. cbn [fst snd]. unfold accepted_trace, preamble.
    cbn [flat_map ALL_STAGES].
    generalize (stage_needed env out overwrite recompute_titles extract_text).
    generalize (stage_needed env out overwrite recompute_titles compute_clusters).
    generalize (stage_needed env out overwrite recompute_titles compute_cluster_titles).
    generalize (stage_needed env out overwrite recompute_titles compute_category_clusters).
    generalize (stage_needed env out overwrite recompute_titles compute_category_titles).
    intros [] [] [] [] []; destruct (string_truthy task_id);
      destruct (has_task_info env task_id); try reflexivity; split; reflexivity.
  - rewrite Hrun. cbn [fst snd]. unfold preamble.
    destruct (string_truthy task_id); reflexivity.
Qed.
Lemma string_length_app (s t : string) :
  String.length (s ++ t) = (String.length s + String.length t)%nat.
Proof. induction s as [|c s IH]; [reflexivity|]. simpl. rewrite IH. reflexivity. Qed.

(** Every path splits into the parts before its first wild card and the
    rest, which is empty or starts with the wild card. *)
Lemma path_split_wildcard (path : PathTuple) :
  exists pre rest,
    path = pre ++ rest
    /\ Forall (fun p => String.eqb p PATH_WILDCARD = false) pre
    /\ (rest = [] \/ exists r, rest = PATH_WILDCARD :: r).
Proof.
  induction path as [|p path (pre & rest & -> & Hpre & Hrest)].
  - exists [], []. repeat split; [constructor | now left].
  - destruct (String.eqb p PATH_WILDCARD) eqn:Hp.
    + apply String.eqb_eq in Hp. subst p.
      exists [], (PATH_WILDCARD :: pre ++ rest). repeat split; [constructor|].
      right. now eexists.
    + exists (p :: pre), rest. repeat split; [now constructor | exact Hrest].
Qed.

Lemma sibling_index_split (pre rest : PathTuple) (i index : nat) :
  Forall (fun p => String.eqb p PATH_WILDCARD = false) pre ->
  rest = [] \/ (exists r, rest = PATH_WILDCARD :: r) ->
  sibling_index (pre ++ rest) i index
  = match pre with [] => index | _ => (i + length pre - 1)%nat end.
Proof.
  intros Hpre Hrest. revert i index.
  induction Hpre as [|p pre Hp Hpre IH]; intros i index.
  - destruct Hrest as [-> | [r ->]]; reflexivity.
  - cbn [app sibling_index]. rewrite Hp, IH. destruct pre; cbn [length]; lia.
Qed.

Lemma filter_no_wildcard (l : PathTuple) :
  Forall (fun p => String.eqb p PATH_WILDCARD = false) l ->
  filter (fun p => negb (String.eqb p PATH_WILDCARD)) l = l.
Proof.
  induction 1 as [|p l Hp _ IH]; [reflexivity|].
  rewrite filter_cons_True by (rewrite Hp; exact I). now rewrite IH.
Qed.

(** The shape of the sibling path. *)
Lemma sibling_output_path_split (pre rest : PathTuple) (x : string) :
  Forall (fun p => String.eqb p PATH_WILDCARD = false) (pre ++ [x]) ->
  rest = [] \/ (exists r, rest = PATH_WILDCARD :: r) ->
  sibling_output_path ((pre ++ [x]) ++ rest)
  = pre ++ [(String.concat "_"
               (x :: filter (fun p => negb (String.eqb p PATH_WILDCARD)) rest)
             ++ "__" ++ FIELD_SUFFIX)%string].
Proof.
  intros Hpre Hrest. unfold sibling_output_path.
  rewrite (sibling_index_split _ _ _ _ Hpre Hrest).
  assert (Hidx : match pre ++ [x] with [] => 0%nat | _ => (0 + length (pre ++ [x]) - 1)%nat end
                 = length pre).
  { destruct pre; [reflexivity|]. cbn [app length]. rewrite length_app. cbn. lia. }
  rewrite Hidx. cbv zeta.
  rewrite <- (app_assoc pre [x] rest).
  rewrite take_app_length, drop_app_length.
  cbn [app].
  apply Forall_app in Hpre as [_ Hx]. inversion Hx as [|? ? Hx' _]; subst.
  rewrite filter_cons_True by (rewrite Hx'; exact I). reflexivity.
Qed.

Lemma suffixed_not_wildcard (s : string) :
  (s ++ "__" ++ FIELD_SUFFIX)%string <> PATH_WILDCARD.
Proof.
  intros H. apply (f_equal String.length) in H.
  rewrite string_length_app in H.
  change (String.length ("__" ++ FIELD_SUFFIX)) with 9%nat in H.
  change (String.length PATH_WILDCARD) with 1%nat in H. lia.
Qed.

Lemma suffixed_not_self (s : string) :
  (s ++ "__" ++ FIELD_SUFFIX)%string <> s.
Proof.
  intros H. apply (f_equal String.length) in H.
  rewrite string_length_app in H.
  change (String.length ("__" ++ FIELD_SUFFIX)) with 9%nat in H. lia.
Qed.

(** X15: the sibling path of an input path keeps the parts before the last
    part that precedes the first wild card; that part and the parts after
    it, wild cards left out, are joined with underscores into one last part
    that ends in [__cluster].  For a path without a wild card only the last
    part changes. *)
Theorem sibling_output_path_shape (parent rest : PathTuple) (x : string) :
  Forall (fun p => p <> PATH_WILDCARD) (parent ++ [x]) ->
  sibling_output_path (parent ++ [x]) = parent ++ [(x ++ "__cluster")%string]
  /\ sibling_output_path (parent ++ [x] ++ PATH_WILDCARD :: rest)
     = parent ++ [(String.concat "_" (x :: filter (fun p => p <> PATH_WILDCARD) rest)
                   ++ "__cluster")%string].
Proof.
  intros Hfree.
  assert (Hfree' : Forall (fun p => String.eqb p PATH_WILDCARD = false) (parent ++ [x])).
  { eapply Forall_impl; [exact Hfree|]. intros p Hp. now apply String.eqb_neq. }
  split.
  - rewrite <- (app_nil_r (parent ++ [x])) at 1.
    rewrite (sibling_output_path_split parent [] x Hfree' (or_introl eq_refl)).
    reflexivity.
  - rewrite app_assoc.
    rewrite (sibling_output_path_split parent _ x Hfree'
               (or_intror (ex_intro _ rest eq_refl))).
    rewrite filter_cons_False
      by (rewrite String.eqb_refl; intros []).
    do 5 f_equal.
    apply list_filter_iff. intros p. rewrite Is_true_true, negb_true_iff.
    apply String.eqb_neq.
Qed.

Lemma sibling_output_path_shape_witness :
  sibling_output_path ["conversation"; "text"] = ["conversation"; "text__cluster"]
  /\ sibling_output_path ["conversation"; "text"; "*"; "value"; "*"]
     = ["conversation"; "text_value__cluster"].
Proof.
  apply (sibling_output_path_shape ["conversation"] ["value"; "*"] "text").
  repeat constructor; discriminate.
Defined.

(** X16: the sibling path is never the input path itself, and none of its
    parts is a wild card. *)
Theorem sibling_output_path_is_fresh (path : PathTuple) :
  sibling_output_path path <> path
  /\ Forall (fun p => p <> PATH_WILDCARD) (sibling_output_path path).
Proof.
  destruct (path_split_wildcard path) as (pre & rest & -> & Hpre & Hrest).
  destruct pre as [|p pre _] using rev_ind.
  - unfold sibling_output_path.
    rewrite (sibling_index_split [] rest 0 0 Hpre Hrest).
    cbn [app firstn skipn]. split.
    + destruct Hrest as [-> | [[|r rs] ->]]; cbn [take drop app].
      * discriminate.
      * intros H. vm_compute in H. discriminate H.
      * intros H. apply (f_equal (@length string)) in H. discriminate H.
    + repeat constructor. apply suffixed_not_wildcard.
  - rewrite (sibling_output_path_split pre rest p Hpre Hrest). split.
    + destruct Hrest as [-> | [r ->]].
      * rewrite app_nil_r. intros H. apply app_inv_head in H.
        injection H as H. revert H. apply (suffixed_not_self p).
      * intros H. apply (f_equal (@length string)) in H.
        rewrite !length_app in H. cbn in H. lia.
    + apply Forall_app. split.
      * apply Forall_app in Hpre as [Hpre _].
        eapply Forall_impl; [exact Hpre|]. intros q Hq. now apply String.eqb_neq.
      * repeat constructor. apply suffixed_not_wildcard.
Qed.

(* ===================================================================== *)
(** ** More on [_hdbscan_cluster] *)
(* ===================================================================== *)

Lemma soft_cluster_batches_no_yield (w : World) (c : Clusterer) (batches : list (list Vector)) :
  omap yielded (fst (soft_cluster_batches w c batches)) = [].
Proof.
  induction batches as [|b batches IH]; [reflexivity|].
  cbn [soft_cluster_batches]. rewrite tbind_trace, soft_cluster_batch_trace, omap_app.
  destruct (snd (soft_cluster_batch w c b)); [|reflexivity].
  rewrite tbind_trace, omap_app, IH.
  destruct (snd (soft_cluster_batches w c batches)); reflexivity.
Qed.

Lemma reassign_noise_no_yield (w : World) (c : Clusterer) (noisy : list Vector) :
  omap yielded (fst (reassign_noise w c noisy)) = [].
Proof.
  unfold reassign_noise.
  destruct ((0 <? length noisy)%nat && (length noisy <? length (labels_ c))%nat);
    [|reflexivity].
  rewrite tbind_trace, omap_app, soft_cluster_batches_no_yield.
  destruct (snd (soft_cluster_batches w c _)); reflexivity.
Qed.

Lemma count_noise_no_yield (c : Clusterer) (vs : list Vector) :
  omap yielded (fst (count_noise c vs)) = [].
Proof.
  unfold count_noise. rewrite tbind_trace. cbn [lift fst snd app].
  destruct (gather_noisy_vectors (labels_ c) 0 vs) as [noisy|e]; [|reflexivity].
  destruct (length (labels_ c) =? 0)%nat; reflexivity.
Qed.

(** The block after the fit: its calls first, then its yields; none when
    it raises. *)
Lemma reassign_and_yield_shape (w : World) (c : Clusterer) (vs : list Vector) :
  exists (calls : list Event) (items : list Dict),
    fst (reassign_and_yield w c vs) = calls ++ map Yield items
    /\ omap yielded calls = []
    /\ (forall e, snd (reassign_and_yield w c vs) = Raise e -> items = []).
Proof.
  unfold reassign_and_yield.
  rewrite tbind_trace, tbind_result.
  destruct (snd (count_noise c vs)) as [noisy|e] eqn:Hc.
  - rewrite tbind_trace, tbind_result.
    destruct (snd (reassign_noise w c noisy)) as [lm|e] eqn:Hr.
    + rewrite for_each_emit_trace. cbn [fst snd].
      exists (fst (count_noise c vs) ++ fst (reassign_noise w c noisy)),
        (map (fun cm => cluster_item (fst cm) (snd cm)) (combine (fst lm) (snd lm))).
      rewrite map_map, app_assoc, omap_app, count_noise_no_yield, reassign_noise_no_yield.
      repeat split. intros e [=].
    + exists (fst (count_noise c vs) ++ fst (reassign_noise w c noisy)), [].
      rewrite !app_nil_r, omap_app, count_noise_no_yield, reassign_noise_no_yield.
      repeat split.
  - exists (fst (count_noise c vs)), [].
    rewrite !app_nil_r, count_noise_no_yield. repeat split.
Qed.

(** X17: a local run does all its work before it yields: its events are
    the calls to its collaborators followed by the yields, and a run that
    raises yields nothing. *)
Theorem local_run_yields_last (w : World) (docs : Docs) (m : Z) :
  let run := _hdbscan_cluster w docs m false in
  exists (calls : list Event) (items : list Dict),
    fst run = calls ++ map Yield items
    /\ omap yielded calls = []
    /\ (forall e, snd run = Raise e -> items = []).
Proof.
  intros run. unfold run. rewrite local_run, local_steps_trace.
  unfold local_steps. rewrite tbind_result.
  destruct (snd (compute_embeddings w docs)) as [all_vectors|e].
  - rewrite tbind_result.
    pose proof (proj1 (reduce_dimensions_quiet w all_vectors)) as Hquiet.
    destruct (snd (reduce_dimensions w all_vectors)) as [reduced|e].
    + rewrite tbind_result, fit_clusterer_run. cbn [snd].
      destruct (reassign_and_yield_shape w (fitted w reduced m) reduced)
        as (calls & items & -> & Hcalls & Hraise).
      exists ([JinaSetup; JinaCompute (fst (py_list docs)); JinaTeardown]
              ++ fst (reduce_dimensions w all_vectors)
              ++ HDBSCANFit (hdbscan_args (Z.min m (Z.of_nat (length reduced)))) reduced
                 :: calls), items.
      repeat split.
      * rewrite <- !app_assoc. reflexivity.
      * rewrite !omap_app, Hquiet. cbn [omap yielded app]. exact Hcalls.
      * exact Hraise.
    + exists ([JinaSetup; JinaCompute (fst (py_list docs)); JinaTeardown]
              ++ fst (reduce_dimensions w all_vectors)), [].
      rewrite !app_nil_r, omap_app, Hquiet. repeat split.
  - exists [JinaSetup; JinaCompute (fst (py_list docs)); JinaTeardown], [].
    repeat split.
Qed.

Lemma mapM_first_embedding_empty (response : list (list Vector)) :
  [] ∈ response -> mapM first_embedding response = Raise IndexError.
Proof.
  induction response as [|r response IH]; intros Hin.
  - apply elem_of_nil in Hin as [].
  - cbn [mapM]. destruct r as [|v r]; [reflexivity|].
    apply elem_of_cons in Hin as [Heq | Hin]; [discriminate|].
    cbn [first_embedding]. rewrite (IH Hin). reflexivity.
Qed.

(** X18: without documents, or when the embedder returns no embedding for
    a document, a local run raises [IndexError] right after the embedding
    call: it reaches neither the reduction nor the clustering, and yields
    nothing. *)
Theorem local_run_needs_embeddings (w : World) (docs : Docs) (m : Z) :
  let response := jina_compute w (fst (py_list docs)) in
  response = [] \/ [] ∈ response ->
  _hdbscan_cluster w docs m false
  = ([JinaSetup; JinaCompute (fst (py_list docs)); JinaTeardown], Raise IndexError).
Proof.
  intros response Hempty. rewrite local_run.
  unfold local_steps, compute_embeddings.
  destruct (py_list docs) as [doc_list docs'] eqn:Hl. cbn [fst] in response.
  fold response. destruct Hempty as [-> | Hin].
  - reflexivity.
  - rewrite (mapM_first_embedding_empty response Hin). reflexivity.
Qed.

Lemma local_run_needs_embeddings_witness :
  _hdbscan_cluster (example_world false) (DocsList []) 5 false
  = ([JinaSetup; JinaCompute []; JinaTeardown], Raise IndexError).
Proof.
  apply (local_run_needs_embeddings (example_world false) (DocsList []) 5).
  left. reflexivity.
Defined.

(** X19: when the answer of the remote service has no key [clusters], a
    remote run raises [KeyError] on that key after the remote call: it
    yields nothing and does not go on to the local computation. *)
Theorem remote_run_needs_clusters_key (w : World) (docs : Docs) (m : Z) :
  let doc_list := fst (py_list docs) in
  remote_fn w (compress_docs w doc_list) !! "clusters"%string = None ->
  _hdbscan_cluster w docs m true
  = ([ModalLookup; CompressDocs doc_list; RemoteCall (compress_docs w doc_list)],
     Raise (KeyError "clusters")).
Proof.
  intros doc_list Hkey. unfold _hdbscan_cluster, remote_branch.
  destruct (py_list docs) as [l docs'] eqn:Hl. cbn [fst] in doc_list.
  subst doc_list. rewrite Hkey. reflexivity.
Qed.

Lemma remote_run_needs_clusters_key_witness :
  _hdbscan_cluster keyless_remote_world (DocsIterator [doc_a; doc_b]) 5 true
  = ([ModalLookup; CompressDocs [doc_a; doc_b];
      RemoteCall (compress_docs keyless_remote_world [doc_a; doc_b])],
     Raise (KeyError "clusters")).
Proof.
  apply (remote_run_needs_clusters_key keyless_remote_world (DocsIterator [doc_a; doc_b]) 5).
  reflexivity.
Defined.

(* ===================================================================== *)
(** ** The stage functions *)
(* ===================================================================== *)

(** On well-typed rows [_compute_titles] yields one title per row. *)
Lemma compute_titles_one_per_row
    (shuffle : nat -> list (str * float) -> list (str * float))
    (text_column id_column membership_column : string)
    (items : list Item) (topic_fn : TopicFn) (task_info : option TaskInfo) :
  forallb (typed_row text_column id_column membership_column) items = true ->
  exists titles task_info',
    _compute_titles shuffle items text_column id_column membership_column topic_fn task_info
    = Ok (titles, task_info')
    /\ length titles = length items.
Proof.
  intros Ht.
  destruct (groups_typed text_column id_column membership_column items Ht)
    as (groups & Hg & Hcat & _).
  assert (Hgt : Forall (fun g => forallb (typed_row text_column id_column membership_column)
                                   g = true) groups).
  { apply forallb_concat. rewrite Hcat. exact Ht. }
  destruct (delayed_jobs_sizes shuffle text_column id_column membership_column 0 groups Hgt)
    as (jobs & Hj & Hsizes).
  unfold _compute_titles, _delayed_compute_all_titles. rewrite Hg. simpl. rewrite Hj. simpl.
  rewrite (surjective_pairing (fold_left _ _ _)). do 2 eexists. split; [reflexivity|].
  rewrite fold_titles, app_nil_l, titles_of_jobs_length, Hsizes, list_sum_lengths, Hcat.
  reflexivity.
Qed.

Lemma with_titles_run (items : list Item) (titles : list (option str)) :
  Forall (fun item => item <> None) items ->
  length titles = length items ->
  exists rows,
    mapM (fun it => Stages.with_title (fst it) (snd it)) (combine items titles) = Ok rows
    /\ length rows = length items
    /\ forall i d, items !! i = Some (Some d) ->
         exists title,
           titles !! i = Some title
           /\ rows !! i = Some (<[CLUSTER_TITLE :=
                                    match title with Some t => VStr t | None => VNone end]> d).
Proof.
  intros Hsome. revert titles.
  induction Hsome as [|item items Hitem _ IH]; intros [|title titles] Hlen;
    try discriminate.
  - exists []. repeat split. intros i d Hi. rewrite lookup_nil in Hi. discriminate.
  - injection Hlen as Hlen. destruct (IH titles Hlen) as (rows & Hrows & Hl & Hrow).
    destruct item as [d0|]; [|congruence].
    cbn [combine mapM fst snd Stages.with_title]. rewrite Hrows.
    eexists. split; [reflexivity|]. split; [cbn; now rewrite Hl|].
    intros [|i] d Hi.
    + injection Hi as ->. exists title. split; reflexivity.
    + exact (Hrow i d Hi).
Qed.

(** X20: on well-typed rows the stage that titles the clusters yields one
    row per input row, in order: the input row with the column
    [cluster_title] set to the title [_compute_titles] gives for the row,
    and its other columns as they were. *)
Theorem compute_cluster_titles_keeps_rows
    (shuffle : nat -> list (str * float) -> list (str * float))
    (topic_fn : TopicFn) (task_info : option TaskInfo) (items : list Item) :
  forallb (typed_row TEXT_COLUMN CLUSTER_ID CLUSTER_MEMBERSHIP_PROB) items = true ->
  exists titles rows task_info',
    _compute_titles shuffle items TEXT_COLUMN CLUSTER_ID CLUSTER_MEMBERSHIP_PROB
      topic_fn task_info = Ok (titles, task_info')
    /\ Stages.compute_cluster_titles shuffle topic_fn task_info items = Ok (rows, task_info')
    /\ length rows = length items
    /\ forall i d, items !! i = Some (Some d) ->
         exists title row,
           titles !! i = Some title
           /\ rows !! i = Some row
           /\ row !! CLUSTER_TITLE = Some (match title with Some t => VStr t | None => VNone end)
           /\ delete CLUSTER_TITLE row = delete CLUSTER_TITLE d.
Proof.
  intros Ht.
  destruct (compute_titles_one_per_row shuffle _ _ _ items topic_fn task_info Ht)
    as (titles & ti' & Hrun & Hlen).
  assert (Hsome : Forall (fun item : Item => item <> None) items).
  { apply Forall_forall. intros item Hin. apply list_elem_of_In in Hin.
    apply (proj1 (forallb_forall _ _) Ht) in Hin. destruct item; [discriminate|].
    discriminate Hin. }
  destruct (with_titles_run items titles Hsome Hlen) as (rows & Hrows & Hl & Hrow).
  exists titles, rows, ti'. split; [exact Hrun|].
  unfold Stages.compute_cluster_titles. rewrite Hrun. cbn [fst snd]. simpl.
  rewrite Hrows. split; [reflexivity|]. split; [exact Hl|].
  intros i d Hi. destruct (Hrow i d Hi) as (title & Htitle & Hr).
  exists title. eexists. split; [exact Htitle|]. split; [exact Hr|].
  split; [apply lookup_insert_eq | apply delete_insert_eq].
Qed.

Lemma compute_cluster_titles_keeps_rows_witness :
  exists titles rows task_info',
    _compute_titles keep_order example_rows TEXT_COLUMN CLUSTER_ID CLUSTER_MEMBERSHIP_PROB
      first_doc (Some example_task) = Ok (titles, task_info')
    /\ Stages.compute_cluster_titles keep_order first_doc (Some example_task) example_rows
       = Ok (rows, task_info')
    /\ length rows = length example_rows
    /\ forall i d, example_rows !! i = Some (Some d) ->
         exists title row,
           titles !! i = Some title
           /\ rows !! i = Some row
           /\ row !! CLUSTER_TITLE = Some (match title with Some t => VStr t | None => VNone end)
           /\ delete CLUSTER_TITLE row = delete CLUSTER_TITLE d.
Proof.
  apply (compute_cluster_titles_keeps_rows keep_order first_doc (Some example_task)
           example_rows).
  reflexivity.
Defined.

(* ===================================================================== *)
(** ** The titles of the groups *)
(* ===================================================================== *)

Lemma float_eqb_eq (p q : float) :
  PrimFloat.eqb p q = true -> PrimFloat.eqb p 0 = false -> p = q.
Proof.
  rewrite !FloatAxioms.eqb_spec. intros Hpq Hp0. apply Prim2SF_inj.
  change (Prim2SF 0) with (S754_zero false) in Hp0. unfold SFeqb in *.
  destruct (Prim2SF p) as [s1|s1| |s1 m1 e1], (Prim2SF q) as [s2|s2| |s2 m2 e2];
    simpl in *; try discriminate;
    try (destruct s1; discriminate); try (destruct s2; discriminate).
  - destruct s1, s2; try discriminate; reflexivity.
  - destruct s1, s2; try discriminate;
      destruct (Z.compare_spec e1 e2) as [-> | |]; try discriminate.
    + destruct (Pos.compare_cont Eq m1 m2) eqn:Hm; try discriminate.
      apply Pos.compare_eq in Hm. subst. reflexivity.
    + destruct (Pos.compare_cont Eq m1 m2) eqn:Hm; try discriminate.
      apply Pos.compare_eq in Hm. subst. reflexivity.
Qed.

Lemma float_eqb_sym (p q : float) : PrimFloat.eqb p q = PrimFloat.eqb q p.
Proof.
  rewrite !FloatAxioms.eqb_spec. unfold SFeqb.
  rewrite (SFcompare_antisym (Prim2SF p) (Prim2SF q)).
  destruct (SFcompare (Prim2SF p) (Prim2SF q)) as [[]|]; reflexivity.
Qed.

Lemma str_eqb_sym (a b : str) : str_eqb a b = str_eqb b a.
Proof.
  revert b. induction a as [|x a IH]; intros [|y b]; simpl; try reflexivity.
  rewrite (IH b). f_equal. apply N.eqb_sym.
Qed.

Lemma doc_eqb_sym (a b : str * float) : doc_eqb a b = doc_eqb b a.
Proof. unfold doc_eqb. rewrite str_eqb_sym, float_eqb_sym. reflexivity. Qed.

Lemma distinct_docs_perm (l l' : list (str * float)) :
  l ≡ₚ l' -> distinct_docs l -> distinct_docs l'.
Proof.
  induction 1 as [|x l l' Hperm IH|x y l|l l' l'' _ IH1 _ IH2].
  - exact id.
  - intros [Hx Hl]. split; [rewrite <- Hperm; exact Hx | exact (IH Hl)].
  - intros [Hy [Hx Hl]]. apply Forall_cons in Hy as [Hyx Hy].
    repeat split; try assumption.
    constructor; [rewrite doc_eqb_sym; exact Hyx | exact Hx].
  - intros H. exact (IH2 (IH1 H)).
Qed.

Lemma dedup_distinct (docs : list (str * float)) : distinct_docs (dedup docs).
Proof.
  induction docs as [|d rest IH]; [exact I|]. simpl.
  destruct (existsb (doc_eqb d) rest) eqn:Hdup; [exact IH|].
  split; [|exact IH]. apply Forall_forall. intros d' Hd'. apply dedup_elem in Hd'.
  destruct (doc_eqb d d') eqn:Heq; [|reflexivity].
  assert (Hex : existsb (doc_eqb d) rest = true).
  { apply existsb_exists. exists d'. split; [apply list_elem_of_In; exact Hd' | exact Heq]. }
  congruence.
Qed.

Lemma dedup_keeps (docs : list (str * float)) (doc : str * float) :
  doc ∈ docs -> PrimFloat.eqb (snd doc) 0 = false -> doc ∈ dedup docs.
Proof.
  induction docs as [|d rest IH]; intros Hin Hnz.
  - apply elem_of_nil in Hin. contradiction.
  - simpl. destruct (existsb (doc_eqb d) rest) eqn:Hdup.
    + apply elem_of_cons in Hin as [Heq | Hin]; [|exact (IH Hin Hnz)].
      subst d. apply existsb_exists in Hdup as (e & He & Heq).
      apply andb_true_iff in Heq as [Htext Hscore].
      apply str_eqb_eq in Htext. apply float_eqb_eq in Hscore; [|exact Hnz].
      assert (Hde : doc = e) by (destruct doc, e; simpl in *; congruence).
      subst e. apply IH; [apply list_elem_of_In; exact He | exact Hnz].
    + apply elem_of_cons in Hin as [Heq | Hin]; [subst; left | right; exact (IH Hin Hnz)].
Qed.

Lemma group_id_unique (id_column : string) (group : list Item) (k k' : Z) :
  group <> [] -> group_has_id id_column group k -> group_has_id id_column group k' -> k = k'.
Proof.
  destruct group as [|item group]; [congruence|]. intros _ Hk Hk'.
  apply Forall_cons in Hk as [Hk _]. apply Forall_cons in Hk' as [Hk' _]. congruence.
Qed.

Lemma group_keyed_adjacent (id_column : string) (keyed : list (Value * Item)) :
  Forall (fun kx => exists z, fst kx = VInt z /\ subscript (snd kx) id_column = Ok (VInt z))
    keyed ->
  adjacent_keys (group_keyed keyed).
Proof.
  induction keyed as [|[k x] rest IH]; intros Hall; [exact I|].
  apply Forall_cons in Hall as [(z & Hk & _) Hrest]. simpl in Hk. subst k.
  specialize (IH Hrest). cbn [group_keyed].
  destruct (group_keyed rest) as [|[k' g] gs]; [exact I|].
  destruct (value_eqb (VInt z) k') eqn:Hzk.
  - destruct k' as [|z'| |]; try discriminate. cbn [value_eqb] in Hzk.
    apply Z.eqb_eq in Hzk. subst z'. destruct gs; [exact I | exact IH].
  - split; [exact Hzk | exact IH].
Qed.

Lemma adjacent_keys_runs (id_column : string) (l : list (Value * list Item)) :
  Forall (fun kg => snd kg <> []
                    /\ exists z, fst kg = VInt z /\ group_has_id id_column (snd kg) z) l ->
  adjacent_keys l ->
  maximal_runs id_column (map snd l).
Proof.
  induction l as [|[ka ga] rest IH]; intros Hall Hadj; [exact I|].
  apply Forall_cons in Hall as [(Hne & za & Hka & Hida) Hrest].
  destruct rest as [|[kb gb] rest']; [exact I|].
  destruct Hadj as [Hab Hadj].
  pose proof Hrest as Hrest'.
  apply Forall_cons in Hrest' as [(Hneb & zb & Hkb & Hidb) _].
  simpl in *. subst ka kb. split; [|exact (IH Hrest Hadj)].
  intros k Hk Hk'.
  pose proof (group_id_unique id_column ga k za Hne Hk Hida).
  pose proof (group_id_unique id_column gb k zb Hneb Hk' Hidb).
  subst za zb. simpl in Hab. rewrite Z.eqb_refl in Hab. discriminate.
Qed.

Lemma maximal_runs_tail (id_column : string) (g : list Item) (groups : list (list Item)) :
  maximal_runs id_column (g :: groups) -> maximal_runs id_column groups.
Proof. destruct groups; [intros _; exact I | intros [_ H]; exact H]. Qed.

(** A run cannot be longer than the first group of maximal runs that
    start with the same rows. *)
Lemma first_run_longest (id_column : string) (g1 g2 : list Item)
    (r1 : list (list Item)) (c2 : list Item) :
  Forall (fun g => g <> [] /\ exists z, group_has_id id_column g z) (g1 :: r1) ->
  maximal_runs id_column (g1 :: r1) ->
  g2 <> [] -> (exists z, group_has_id id_column g2 z) ->
  g1 ++ concat r1 = g2 ++ c2 ->
  (length g2 <= length g1)%nat.
Proof.
  intros Hall Hruns Hne2 [z2 Hid2] Heq.
  apply Forall_cons in Hall as [[Hne1 [z1 Hid1]] Hr1].
  destruct (Nat.le_gt_cases (length g2) (length g1)) as [|Hlt]; [assumption|exfalso].
  assert (Hz : z1 = z2).
  { destruct g1 as [|x1 g1]; [congruence|]. destruct g2 as [|x2 g2]; [congruence|].
    injection Heq as -> _.
    apply Forall_cons in Hid1 as [Hx1 _]. apply Forall_cons in Hid2 as [Hx2 _]. congruence. }
  subst z2.
  destruct (lookup_lt_is_Some_2 g2 (length g1) Hlt) as [x Hx].
  assert (Hc : concat r1 !! 0%nat = Some x).
  { pose proof (f_equal (fun l => l !! length g1) Heq) as Hl. cbn beta in Hl.
    rewrite lookup_app_r in Hl by lia. rewrite Nat.sub_diag in Hl.
    rewrite lookup_app_l in Hl by exact Hlt. congruence. }
  destruct r1 as [|h r1]; [discriminate|].
  apply Forall_cons in Hr1 as [[Hneh [zh Hidh]] _].
  destruct h as [|y h]; [congruence|]. simpl in Hc. injection Hc as ->.
  assert (Hxz : subscript x id_column = Ok (VInt z1)).
  { apply (proj1 (Forall_forall _ _) Hid2). eapply list_elem_of_lookup_2. exact Hx. }
  pose proof Hidh as Hidh'. apply Forall_cons in Hidh' as [Hxh _].
  assert (zh = z1) by congruence. subst zh.
  destruct Hruns as [Hdiff _]. exact (Hdiff z1 Hid1 Hidh).
Qed.

(** The split of the rows into maximal runs of one id is unique. *)
Lemma maximal_runs_unique (id_column : string) (groups1 groups2 : list (list Item)) :
  Forall (fun g => g <> [] /\ exists z, group_has_id id_column g z) groups1 ->
  Forall (fun g => g <> [] /\ exists z, group_has_id id_column g z) groups2 ->
  maximal_runs id_column groups1 -> maximal_runs id_column groups2 ->
  concat groups1 = concat groups2 ->
  groups1 = groups2.
Proof.
  revert groups2. induction groups1 as [|g1 r1 IH]; intros [|g2 r2] H1 H2 M1 M2 Heq.
  - reflexivity.
  - apply Forall_cons in H2 as [[Hne _] _]. simpl in Heq.
    destruct g2; [congruence | discriminate].
  - apply Forall_cons in H1 as [[Hne _] _]. simpl in Heq.
    destruct g1; [congruence | discriminate].
  - simpl in Heq.
    pose proof H1 as H1'. pose proof H2 as H2'.
    apply Forall_cons in H1' as [[Hne1 Hid1] Hr1].
    apply Forall_cons in H2' as [[Hne2 Hid2] Hr2].
    pose proof (first_run_longest id_column g1 g2 r1 (concat r2) H1 M1 Hne2 Hid2 Heq).
    pose proof (first_run_longest id_column g2 g1 r2 (concat r1) H2 M2 Hne1 Hid1
                  (eq_sym Heq)).
    destruct (app_inj_1 g1 g2 (concat r1) (concat r2)) as [-> Hrest]; [lia | exact Heq|].
    f_equal. apply IH; try assumption; eapply maximal_runs_tail; eassumption.
Qed.

Section TitlesBroadcast.
Variables text_column id_column membership_column : string.
Variable shuffle : nat -> list (str * float) -> list (str * float).
Hypothesis shuffle_permutes : forall n l, shuffle n l ≡ₚ l.

(** The groups of well-typed rows are the maximal runs of one id. *)
Lemma groups_maximal (items : list Item) :
  forallb (typed_row text_column id_column membership_column) items = true ->
  exists groups,
    group_by_sorted_key_iter items (fun x => subscript x id_column) = Ok groups
    /\ concat groups = items
    /\ Forall (fun g => g <> [] /\ exists z, group_has_id id_column g z) groups
    /\ maximal_runs id_column groups.
Proof.
  intros Ht.
  destruct (keyed_typed text_column id_column membership_column items Ht)
    as (keyed & Hm & Hsnd & Hall).
  unfold group_by_sorted_key_iter. rewrite Hm. simpl.
  destruct (group_keyed_spec id_column keyed Hall) as [Hcat Hgroups].
  eexists. split; [reflexivity|]. split; [congruence|]. split.
  - apply Forall_map. eapply Forall_impl; [exact Hgroups|].
    intros [k g] (Hne & z & _ & Hid). simpl in *. split; [exact Hne|]. exists z. exact Hid.
  - apply adjacent_keys_runs; [exact Hgroups|].
    apply (group_keyed_adjacent id_column). exact Hall.
Qed.

Lemma ranked_exactly_job (n : nat) (group : list Item) :
  forallb (typed_row text_column id_column membership_column) group = true ->
  exists job,
    delayed_job shuffle text_column id_column membership_column n group = Ok job
    /\ snd job = length group
    /\ ranked_exactly text_column id_column membership_column group (fst job).
Proof.
  intros Hg.
  destruct (collect_sorted_docs_typed text_column id_column membership_column group Hg)
    as (docs & Hc & Hfrom & Hneg).
  unfold delayed_job. rewrite Hc. simpl.
  eexists. split; [reflexivity|]. split; [reflexivity|]. cbn [fst].
  assert (Hperm : sort_desc (shuffle n (dedup docs)) ≡ₚ dedup docs)
    by (rewrite sort_desc_perm; apply shuffle_permutes).
  split; [split|split; [|split]].
  - intros doc Hdoc. apply Hfrom. apply dedup_elem. rewrite <- Hperm. exact Hdoc.
  - intros k Hid Hk. rewrite (Hneg k Hid Hk). apply Permutation_nil_r.
    rewrite sort_desc_perm, shuffle_permutes. reflexivity.
  - intros item doc Hin Hq. rewrite Hperm. apply dedup_keeps.
    + exact (collect_sorted_docs_complete _ _ _ _ _ _ _ Hc Hin Hq).
    + destruct Hq as (d & k & _ & _ & _ & _ & _ & _ & Hnz). exact Hnz.
  - apply (distinct_docs_perm (dedup docs)); [symmetry; exact Hperm | apply dedup_distinct].
  - apply desc_chain_descending, sort_desc_chain.
Qed.

Lemma delayed_jobs_exact (n : nat) (groups : list (list Item)) :
  Forall (fun g => forallb (typed_row text_column id_column membership_column) g = true)
    groups ->
  exists jobs,
    delayed_jobs shuffle text_column id_column membership_column n groups = Ok jobs
    /\ map snd jobs = map length groups
    /\ Forall2 (ranked_exactly text_column id_column membership_column) groups
         (map fst jobs).
Proof.
  revert n. induction groups as [|g groups IH]; intros n Ht; simpl.
  - exists []. repeat split. constructor.
  - apply Forall_cons in Ht as [Hg Hgroups].
    destruct (IH (S n) Hgroups) as (jobs & Hj & Hlen & Hrel).
    destruct (ranked_exactly_job n g Hg) as (job & Hjob & Hsize & Hexact).
    rewrite Hjob. simpl. rewrite Hj. simpl.
    exists (job :: jobs). split; [reflexivity|]. simpl. split; [congruence|].
    constructor; [exact Hexact | exact Hrel].
Qed.

(** C5: on rows typed as the schema declares, [_compute_titles] splits the
    rows into the maximal runs of rows of one id, and yields one title for
    every row in the order of the rows: the title of the row's group. The
    documents handed to the topic function for a group are exactly the
    documents of its rows with a non-negative id, a non-empty text and a
    non-zero membership probability, each document once, highest score
    first; the topic function is called once on them and its title goes to
    every row of the group; a group without such a document (so every group
    with a negative id) gets the null title, without a call. *)
Theorem compute_titles_spec (items : list Item) (topic_fn : TopicFn)
    (task_info : option TaskInfo) :
  forallb (typed_row text_column id_column membership_column) items = true ->
  exists (groups : list (list Item)) (ranked : list (list (str * float)))
         (task_info' : option TaskInfo),
    concat groups = items
    /\ Forall (fun g => g <> [] /\ exists z, group_has_id id_column g z) groups
    /\ maximal_runs id_column groups
    /\ Forall2 (ranked_exactly text_column id_column membership_column) groups ranked
    /\ _compute_titles shuffle items text_column id_column membership_column topic_fn
         task_info
       = Ok (broadcast_titles topic_fn groups ranked, task_info')
    /\ length (broadcast_titles topic_fn groups ranked) = length items
    /\ (forall r, title_of topic_fn r = None <-> r = []).
Proof.
  intros Ht.
  destruct (groups_maximal items Ht) as (groups & Hg & Hcat & Hgroups & Hruns).
  assert (Hgt : Forall (fun g => forallb (typed_row text_column id_column membership_column)
                                   g = true) groups).
  { apply forallb_concat. rewrite Hcat. exact Ht. }
  destruct (delayed_jobs_exact 0 groups Hgt) as (jobs & Hj & Hlen & Hrel).
  exists groups, (map fst jobs).
  unfold _compute_titles, _delayed_compute_all_titles. rewrite Hg. simpl. rewrite Hj. simpl.
  eexists. split; [exact Hcat|]. split; [exact Hgroups|]. split; [exact Hruns|].
  split; [exact Hrel|]. split; [|split].
  - rewrite (surjective_pairing (fold_left _ _ _)). f_equal. f_equal.
    rewrite fold_titles. simpl. apply broadcast_of_jobs. exact Hlen.
  - rewrite <- Hcat. apply broadcast_length.
    rewrite length_map. rewrite <- (length_map snd jobs), Hlen, length_map. reflexivity.
  - intros r. destruct r; simpl; split; intros H; try reflexivity; discriminate.
Qed.
End TitlesBroadcast.

Lemma compute_titles_spec_witness :
  forallb (typed_row "text" "cluster_id" "cluster_membership_prob") example_rows = true
  /\ exists (groups : list (list Item)) (ranked : list (list (str * float)))
            (task_info' : option TaskInfo),
       concat groups = example_rows
       /\ Forall (fun g => g <> [] /\ exists z, group_has_id "cluster_id" g z) groups
       /\ maximal_runs "cluster_id" groups
       /\ Forall2 (ranked_exactly "text" "cluster_id" "cluster_membership_prob") groups ranked
       /\ _compute_titles keep_order example_rows "text" "cluster_id"
            "cluster_membership_prob" first_doc None
          = Ok (broadcast_titles first_doc groups ranked, task_info')
       /\ length (broadcast_titles first_doc groups ranked) = length example_rows
       /\ (forall r, title_of first_doc r = None <-> r = []).
Proof.
  split; [vm_compute; reflexivity|].
  apply (compute_titles_spec "text" "cluster_id" "cluster_membership_prob" keep_order
           (fun n l => Permutation_refl l) example_rows first_doc None).
  vm_compute. reflexivity.
Defined.
